(** * thinkfan: the control loop of [src/thinkfan.cpp]

    A shallow embedding of the main program of thinkfan: the status report
    ([report_tstat]), the signal handler ([sig_handler]), the control loop
    ([run]), command-line handling ([set_options]) and the reload loop of
    [main].

    Conventions of the embedding.
    - [int] readings are [Z]; the [float] globals and fields ([bias],
      [bias_level], [depulse]) are exact rationals [Q] in the state, where
      rounding is not modelled.  Module [Binary32] has the bias decay step in
      IEEE binary32; what is stated of the step by itself is stated there.
    - A [std::vector] is a [list]; an iterator is a position in it, the
      past-the-end iterator being the length.  Dereferencing an iterator that
      points to no element is undefined behaviour, outcome [Undefined].
    - Code that throws returns [Throw]; the globals, the fan commands issued
      and the lines logged so far are kept in the state.
    - What is declared outside this file ([Level], [SensorDriver], [fail],
      the message macros) is a parameter of the development. *)

From Stdlib Require Import ZArith QArith Qabs String Ascii DecimalString Lia Lqa.
From Stdlib Require Floats.SpecFloat.
From stdpp Require Import base list.

Set Default Proof Using "Type*".
Open Scope Z_scope.

(** ** Outcomes and the state-and-exception monad *)

Inductive LogLevel := TF_ERR | TF_WRN | TF_INF | TF_DBG.

(** The message macros of [message.h], by name; [MsgText] is a string built in
    this file. [MSG_T_STAT] carries its five arguments. *)
Inductive Msg :=
| MSG_SENSOR_LOST
| MSG_T_STAT (sleep tmax last_tmax : Z) (b_tmax : option Z) (lvl : string)
| MSG_RELOAD_CONF
| MSG_CONF_RELOAD_ERR
| MSG_TERM
| MSG_USAGE
| MSG_BUG
| MSG_OPT_S
| MSG_OPT_S_INVAL
| MSG_OPT_S_15 (s : Z)
| MSG_OPT_S_1 (s : Z)
| MSG_OPT_B
| MSG_OPT_B_INVAL
| MSG_OPT_B_NOARG
| MSG_OPT_P
| MSG_DEPULSE (depulse : Q) (sleep : Z)
| MsgText (s : string).

(** The exceptions this file throws or catches. [StdException] stands for an
    exception caught by [catch (std::exception &)] only, [what] being its
    [what()]. *)
Inductive Exn :=
| SystemError (m : Msg)
| InvocationError (m : Msg)
| ConfigError (m : Msg)
| Bug (what : string)
| StdException (what : string).

Inductive Outcome (A : Type) :=
| Ok (a : A)
| Throw (e : Exn)
| Undefined.
Arguments Ok {A} a.
Arguments Throw {A} e.
Arguments Undefined {A}.

Definition M (S A : Type) : Type := S -> Outcome A * S.

Definition ret {S A} (a : A) : M S A := fun s => (Ok a, s).

Definition bind {S A B} (c : M S A) (k : A -> M S B) : M S B :=
  fun s =>
    match c s with
    | (Ok a, s') => k a s'
    | (Throw e, s') => (Throw e, s')
    | (Undefined, s') => (Undefined, s')
    end.

Definition throw {S A} (e : Exn) : M S A := fun s => (Throw e, s).
Definition undefined {S A} : M S A := fun s => (Undefined, s).
Definition gets {S A} (f : S -> A) : M S A := fun s => (Ok (f s), s).
Definition modify {S} (f : S -> S) : M S unit := fun s => (Ok tt, f s).

Declare Scope tf_scope.
Delimit Scope tf_scope with tf.
Notation "x <- c ;; k" := (bind c (fun x => k))
  (at level 100, c at next level, right associativity) : tf_scope.
Notation "c ;; k" := (bind c (fun _ => k))
  (at level 100, right associativity) : tf_scope.
Open Scope tf_scope.

Fixpoint for_each {S A} (f : A -> M S unit) (l : list A) : M S unit :=
  match l with
  | [] => ret tt
  | a :: l' => f a ;; for_each f l'
  end.

(** [*it] for an iterator at position [i] of [v]. *)
Definition deref {S A} (v : list A) (i : nat) : M S A :=
  match v !! i with
  | Some a => ret a
  | None => undefined
  end.

(** ** Temperature state *)

(** Which vector an iterator stored in a [TemperatureState] points into: the
    [temps] of the state that holds it, or those of the other state ([run]
    aliases the two cursors while it takes the first readings). *)
Inductive Vec := Own | Other.

Record iter := { it_vec : Vec; it_pos : nat }.

Record TemperatureState := {
  temps : list Z;
  temp_it : iter;
  tmax : Z;
  b_tmax : iter;
  bias : Q
}.

Definition begin_it : iter := {| it_vec := Own; it_pos := 0 |}.
Definition end_it (ts : TemperatureState) : iter :=
  {| it_vec := Own; it_pos := length (temps ts) |}.

Definition iter_eqb (a b : iter) : bool :=
  match it_vec a, it_vec b with
  | Own, Own | Other, Other => Nat.eqb (it_pos a) (it_pos b)
  | _, _ => false
  end.

Definition set_temp_it (it : iter) (ts : TemperatureState) : TemperatureState :=
  {| temps := temps ts; temp_it := it; tmax := tmax ts;
     b_tmax := b_tmax ts; bias := bias ts |}.
Definition set_tmax (t : Z) (ts : TemperatureState) : TemperatureState :=
  {| temps := temps ts; temp_it := temp_it ts; tmax := t;
     b_tmax := b_tmax ts; bias := bias ts |}.
Definition set_bias (b : Q) (ts : TemperatureState) : TemperatureState :=
  {| temps := temps ts; temp_it := temp_it ts; tmax := tmax ts;
     b_tmax := b_tmax ts; bias := b |}.

(** Modelled from the spec: the constructor [TemperatureState(n)] is declared
    in thinkfan.h, outside this file. Section 3 of the spec: [temps] has
    [num_temps()] slots, the cursor starts at the beginning and [tmax] at the
    sentinel -128; the bias is neutral. *)
Definition new_TemperatureState (n : nat) : TemperatureState :=
  {| temps := replicate n 0; temp_it := begin_it; tmax := -128;
     b_tmax := begin_it; bias := 0 |}.

(** ** [report_tstat] *)

(** [std::to_string(int)]: decimal digits, a leading minus sign for negative
    values. *)
Definition to_string (z : Z) : string := NilZero.string_of_int (Z.to_int z).

(** [rv.substr(0, n)]. *)
Definition substr0 (n : nat) (s : string) : string := substring 0 n s.

Definition report_tstat (ts : TemperatureState) : string :=
  let rv :=
    fold_left (fun rv temp => String.append rv (String.append (to_string temp) ", "))
              (temps ts) "Current temperatures: "%string in
  substr0 (String.length rv - 2) rv.

(** The report as the specification words it: the heading followed by the
    readings joined with [", "]. *)
Definition spec_report (ts : list Z) : string :=
  String.append "Current temperatures: " (String.concat ", " (map to_string ts)).

(** ** Bias decay (end of each cycle of [run]) *)

Definition bias_decay (bias_level bias : Q) : Q :=
  if Qeq_dec bias 0 then bias
  else if Qlt_le_dec 0 bias then
    if Qlt_le_dec bias (1 # 2) then 0
    else (bias - bias / 2 * bias_level)%Q
  else
    if Qlt_le_dec (- (1 # 2)) bias then 0
    else (bias + bias / 2 * bias_level)%Q.

Fixpoint decay_steps (n : nat) (bias_level bias : Q) : Q :=
  match n with
  | O => bias
  | S n' => decay_steps n' bias_level (bias_decay bias_level bias)
  end.

(** The same step in IEEE binary32 ([float]), for concrete evaluation. *)
Module Binary32.
Import Floats.SpecFloat.

Definition float := spec_float.
Definition of_Z (m e : Z) : float := binary_normalize 24 128 m e false.
Definition zero : float := S754_zero false.
Definition half : float := of_Z 1 (-1).
Definition two : float := of_Z 2 0.
Definition sub := SFsub 24 128.
Definition add := SFadd 24 128.
Definition mul := SFmul 24 128.
Definition div := SFdiv 24 128.
Definition ltb := SFltb.
Definition eqb := SFeqb.

Definition bias_decay32 (bias_level bias : float) : float :=
  if negb (eqb bias zero) then
    if ltb zero bias then
      if ltb bias half then zero
      else sub bias (mul (div bias two) bias_level)
    else
      if ltb (SFopp half) bias then zero
      else add bias (mul (div bias two) bias_level)
  else bias.
End Binary32.

(** [n] decay steps in binary32. *)
Fixpoint decay_steps32 (n : nat) (bias_level bias : Binary32.float) : Binary32.float :=
  match n with
  | O => bias
  | S n' => decay_steps32 n' bias_level (Binary32.bias_decay32 bias_level bias)
  end.

(** ** Logging and [fail] *)

Inductive LogEntry :=
| Logged (lvl : LogLevel) (m : Msg)
| Cerr (m : Msg).

Class HasLog (S : Type) := add_log : LogEntry -> S -> S.

Definition log {S} `{HasLog S} (lvl : LogLevel) (m : Msg) : M S unit :=
  modify (add_log (Logged lvl m)).

Definition exn_msg (e : Exn) : Msg :=
  match e with
  | SystemError m | InvocationError m | ConfigError m => m
  | Bug w | StdException w => MsgText w
  end.

(** [fail(lvl) << e << flush]. [fail] and the logger are declared in
    message.h and error.h, outside this file: whether the statement throws [e]
    or only reports it is the parameter [fail_raises]. *)
Definition fail {S} `{HasLog S} (fail_raises : LogLevel -> bool)
    (lvl : LogLevel) (e : Exn) : M S unit :=
  if fail_raises lvl then throw e else log lvl (exn_msg e).

(** ** Options and [set_options] *)

Record Options := {
  chk_sanity : bool;
  resume_is_safe : bool;
  quiet : bool;
  sleeptime : Z;
  bias_level : Q;
  depulse : Q;
  config_file : string
}.

(** The initialisers of the globals; [CONFIG_DEFAULT] is a macro of the
    build. *)
Definition initial_options (CONFIG_DEFAULT : string) : Options :=
  {| chk_sanity := true; resume_is_safe := false; quiet := false;
     sleeptime := 5; bias_level := 5; depulse := 0;
     config_file := CONFIG_DEFAULT |}.

Record OptState := { opts : Options; opt_log : list LogEntry }.

#[global] Instance OptState_log : HasLog OptState :=
  fun e s => {| opts := opts s; opt_log := opt_log s ++ [e] |}.

Definition set_opts (f : Options -> Options) : M OptState unit :=
  modify (fun s => {| opts := f (opts s); opt_log := opt_log s |}).

(** What [std::stoul] or [std::stof] does with [optarg]: it throws, or yields
    a value and the number [invalid] of characters it consumed; [arg_length]
    is [arg.length()]. A [float] result is taken as the rational it denotes:
    NaN and the infinities are not represented. *)
Inductive Parsed (A : Type) :=
| parse_invalid_argument
| parse_out_of_range
| parsed (value : A) (invalid : nat) (arg_length : nat).
Arguments parse_invalid_argument {A}.
Arguments parse_out_of_range {A}.
Arguments parsed {A} value invalid arg_length.

(** One result of [getopt(argc, argv, "c:s:b:p::hqDz")], with [optarg]
    already read as the option's case reads it. The build without
    USE_ATASMART is modelled. *)
Inductive CmdOpt :=
| opt_h
| opt_c (optarg : string)
| opt_q
| opt_D
| opt_z
| opt_s (optarg : option (Parsed Z))
| opt_b (optarg : option (Parsed Q))
| opt_p (optarg : option (Parsed Q))
| opt_unknown.

(** Conversion of the [unsigned long] result of [stoul] to [int], and of an
    [int] to [unsigned int]. *)
Definition to_int32 (v : Z) : Z := (v + 2 ^ 31) mod 2 ^ 32 - 2 ^ 31.
Definition to_uint32 (v : Z) : Z := v mod 2 ^ 32.

Definition with_sleeptime (s : Z) (o : Options) : Options :=
  {| chk_sanity := chk_sanity o; resume_is_safe := resume_is_safe o;
     quiet := quiet o; sleeptime := s; bias_level := bias_level o;
     depulse := depulse o; config_file := config_file o |}.
Definition with_bias_level (b : Q) (o : Options) : Options :=
  {| chk_sanity := chk_sanity o; resume_is_safe := resume_is_safe o;
     quiet := quiet o; sleeptime := sleeptime o; bias_level := b;
     depulse := depulse o; config_file := config_file o |}.
Definition with_depulse (d : Q) (o : Options) : Options :=
  {| chk_sanity := chk_sanity o; resume_is_safe := resume_is_safe o;
     quiet := quiet o; sleeptime := sleeptime o; bias_level := bias_level o;
     depulse := d; config_file := config_file o |}.
Definition with_config_file (c : string) (o : Options) : Options :=
  {| chk_sanity := chk_sanity o; resume_is_safe := resume_is_safe o;
     quiet := quiet o; sleeptime := sleeptime o; bias_level := bias_level o;
     depulse := depulse o; config_file := c |}.
Definition with_quiet (b : bool) (o : Options) : Options :=
  {| chk_sanity := chk_sanity o; resume_is_safe := resume_is_safe o;
     quiet := b; sleeptime := sleeptime o; bias_level := bias_level o;
     depulse := depulse o; config_file := config_file o |}.
Definition with_chk_sanity (b : bool) (o : Options) : Options :=
  {| chk_sanity := b; resume_is_safe := resume_is_safe o;
     quiet := quiet o; sleeptime := sleeptime o; bias_level := bias_level o;
     depulse := depulse o; config_file := config_file o |}.
Definition with_resume_is_safe (b : bool) (o : Options) : Options :=
  {| chk_sanity := chk_sanity o; resume_is_safe := b;
     quiet := quiet o; sleeptime := sleeptime o; bias_level := bias_level o;
     depulse := depulse o; config_file := config_file o |}.

Section SetOptions.
Variable fail_raises : LogLevel -> bool.

(** The body of the [switch]: [None] is [break], [Some rc] is [return rc]. *)
Definition set_option (o : CmdOpt) : M OptState (option Z) :=
  match o with
  | opt_h => modify (add_log (Cerr MSG_USAGE)) ;; ret (Some 1)
  | opt_c optarg => set_opts (with_config_file optarg) ;; ret None
  | opt_q => set_opts (with_quiet true) ;; ret None
  | opt_D => set_opts (with_chk_sanity false) ;; ret None
  | opt_z => set_opts (with_resume_is_safe true) ;; ret None
  | opt_s (Some (parsed v invalid len)) =>
      let s := to_int32 v in
      (if (invalid <? len)%nat
       then fail fail_raises TF_ERR (InvocationError MSG_OPT_S_INVAL)
       else ret tt) ;;
      (if 15 <? s then fail fail_raises TF_WRN (InvocationError (MSG_OPT_S_15 s))
       else if s <? 0
       then fail fail_raises TF_ERR
                 (InvocationError (MsgText "Negative sleep time? Seriously?"))
       else if s <? 1 then fail fail_raises TF_WRN (InvocationError (MSG_OPT_S_1 s))
       else ret tt) ;;
      set_opts (with_sleeptime (to_uint32 s)) ;;
      ret None
  | opt_s (Some _) =>
      fail fail_raises TF_ERR (InvocationError MSG_OPT_S_INVAL) ;; ret None
  | opt_s None => fail fail_raises TF_ERR (InvocationError MSG_OPT_S) ;; ret None
  | opt_b (Some (parsed b invalid len)) =>
      (if (invalid <? len)%nat
       then fail fail_raises TF_WRN (InvocationError MSG_OPT_B_INVAL)
       else ret tt) ;;
      (if Qlt_le_dec b (-10) then fail fail_raises TF_WRN (InvocationError MSG_OPT_B)
       else if Qlt_le_dec 30 b then fail fail_raises TF_WRN (InvocationError MSG_OPT_B)
       else ret tt) ;;
      set_opts (with_bias_level (b / 10)%Q) ;;
      ret None
  | opt_b (Some _) =>
      fail fail_raises TF_ERR (InvocationError MSG_OPT_B_INVAL) ;; ret None
  | opt_b None =>
      fail fail_raises TF_ERR (InvocationError MSG_OPT_B_NOARG) ;; ret None
  | opt_p (Some (parsed d invalid len)) =>
      set_opts (with_depulse d) ;;
      (if negb (invalid =? 0)%nat || (if Qlt_le_dec 10 d then true else false)
          || (if Qlt_le_dec d 0 then true else false)
       then fail fail_raises (if Qlt_le_dec d 0 then TF_ERR else TF_WRN)
                 (InvocationError MSG_OPT_P)
       else ret tt) ;;
      ret None
  | opt_p (Some parse_invalid_argument) => throw (StdException "invalid_argument")
  | opt_p (Some parse_out_of_range) => throw (StdException "out_of_range")
  | opt_p None => set_opts (with_depulse (1 # 2)) ;; ret None
  | opt_unknown =>
      modify (add_log (Cerr (MsgText "Invalid commandline option."))) ;;
      modify (add_log (Cerr MSG_USAGE)) ;;
      ret (Some 3)
  end.

(** [set_options]: the [getopt] loop over the options of the command line,
    then the depulse notice. *)
Fixpoint set_options (argv : list CmdOpt) : M OptState Z :=
  match argv with
  | [] =>
      d <- gets (fun s => depulse (opts s)) ;;
      s <- gets (fun s => sleeptime (opts s)) ;;
      (if Qlt_le_dec 0 d then log TF_INF (MSG_DEPULSE d s) else ret tt) ;;
      ret 0
  | o :: argv' =>
      r <- set_option o ;;
      match r with
      | Some rc => ret rc
      | None => set_options argv'
      end
  end.

(** The [while] loop of [set_options] alone, up to the point where [getopt]
    has no more options: [Some rc] when a case returned [rc] before that. *)
Fixpoint getopt_loop (argv : list CmdOpt) : M OptState (option Z) :=
  match argv with
  | [] => ret None
  | o :: argv' =>
      r <- set_option o ;;
      match r with
      | Some rc => ret (Some rc)
      | None => getopt_loop argv'
      end
  end.

End SetOptions.

(** ** The world of the control loop *)

Inductive Signal := SIGHUP | SIGINT | SIGTERM | SIGUSR1 | SIGSEGV | SIGOTHER.

Inductive FanCmd (Level : Type) :=
| fan_init
| set_speed (l : Level)
| ping_watchdog_and_depulse (l : Level).
Arguments fan_init {Level}.
Arguments set_speed {Level} l.
Arguments ping_watchdog_and_depulse {Level} l.

(** The globals a sensor driver reads and writes: the two temperature states
    ([temp_state] and [last_temp_state] name the objects the two pointers
    refer to) and the hold timer. *)
Record Buffers := {
  temp_state : TemperatureState;
  last_temp_state : TemperatureState;
  tmp_sleeptime : Z
}.

Record World (Level : Type) := {
  bufs : Buffers;
  interrupted : option Signal;
  fan_cmds : list (FanCmd Level);
  logged : list LogEntry
}.
Arguments bufs {Level} w.
Arguments interrupted {Level} w.
Arguments fan_cmds {Level} w.
Arguments logged {Level} w.

(** The interface of [Level] used by the loop: [operator<=] and [operator>]
    against a [TemperatureState], and [str()]. *)
Class LevelOps (Level : Type) := {
  le_state : Level -> TemperatureState -> bool;
  gt_state : Level -> TemperatureState -> bool;
  str : Level -> string
}.

(** [sensor->read_temps()] on the hardware as it is at the time of the call:
    it updates the globals or throws. *)
Class SensorOps (SensorDriver Hw : Type) :=
  read_temps : SensorDriver -> Hw -> Buffers -> Exn + Buffers.

Record Config (Level SensorDriver : Type) := {
  sensors : list SensorDriver;
  levels : list Level;
  num_temps : nat
}.
Arguments sensors {Level SensorDriver} c.
Arguments levels {Level SensorDriver} c.
Arguments num_temps {Level SensorDriver} c.

(** What the environment does during one cycle: the hardware the sensors
    read, and the signals delivered while the loop sleeps. *)
Record CycleEnv (Hw : Type) := { hw : Hw; signals : list Signal }.
Arguments hw {Hw} c.
Arguments signals {Hw} c.

Inductive RunEnd := Returned | StillRunning.

Section ControlLoop.
Context {Level SensorDriver Hw : Type}.
Context `{LevelOps Level} `{SensorOps SensorDriver Hw}.
Variable fail_raises : LogLevel -> bool.
Variable options : Options.

#[local] Abbreviation World := (World Level).
#[local] Abbreviation Config := (Config Level SensorDriver).

#[global] Instance World_log : HasLog World :=
  fun e w => {| bufs := bufs w; interrupted := interrupted w;
                fan_cmds := fan_cmds w; logged := logged w ++ [e] |}.

Definition with_bufs (f : Buffers -> Buffers) (w : World) : World :=
  {| bufs := f (bufs w); interrupted := interrupted w;
     fan_cmds := fan_cmds w; logged := logged w |}.
Definition set_interrupted (i : option Signal) (w : World) : World :=
  {| bufs := bufs w; interrupted := i;
     fan_cmds := fan_cmds w; logged := logged w |}.

(** A call of the fan driver: the command is recorded and the call returns.
    The drivers are declared outside this file; a call that throws is not
    modelled. *)
Definition issue (c : FanCmd Level) (w : World) : World :=
  {| bufs := bufs w; interrupted := interrupted w;
     fan_cmds := fan_cmds w ++ [c]; logged := logged w |}.
Definition fan (c : FanCmd Level) : M World unit := modify (issue c).

Definition on_temp_state (f : TemperatureState -> TemperatureState)
    (b : Buffers) : Buffers :=
  {| temp_state := f (temp_state b); last_temp_state := last_temp_state b;
     tmp_sleeptime := tmp_sleeptime b |}.
Definition on_last_temp_state (f : TemperatureState -> TemperatureState)
    (b : Buffers) : Buffers :=
  {| temp_state := temp_state b; last_temp_state := f (last_temp_state b);
     tmp_sleeptime := tmp_sleeptime b |}.
Definition set_tmp_sleeptime (s : Z) (b : Buffers) : Buffers :=
  {| temp_state := temp_state b; last_temp_state := last_temp_state b;
     tmp_sleeptime := s |}.
(** [std::swap(temp_state, last_temp_state)]. *)
Definition swap_states (b : Buffers) : Buffers :=
  {| temp_state := last_temp_state b; last_temp_state := temp_state b;
     tmp_sleeptime := tmp_sleeptime b |}.

(** [*ts->b_tmax], when the iterator points to a slot. The sensor drivers,
    outside this file, maintain [b_tmax]: the log line takes what it finds,
    and an invalid [b_tmax] is not counted as undefined behaviour. *)
Definition deref_b_tmax (b : Buffers) : option Z :=
  match it_vec (b_tmax (temp_state b)) with
  | Own => temps (temp_state b) !! it_pos (b_tmax (temp_state b))
  | Other => temps (last_temp_state b) !! it_pos (b_tmax (temp_state b))
  end.

(** [sig_handler]. *)
Definition sig_handler (signum : Signal) : M World unit :=
  match signum with
  | SIGHUP => modify (set_interrupted (Some signum))
  | SIGINT | SIGTERM => modify (set_interrupted (Some signum))
  | SIGUSR1 =>
      ts <- gets (fun w => temp_state (bufs w)) ;;
      log TF_INF (MsgText (report_tstat ts))
  | SIGSEGV => throw (Bug "Segmentation fault.")
  | SIGOTHER => ret tt
  end.

(** [std::this_thread::sleep_for(sleeptime)], with the handlers of the
    signals that arrive meanwhile. *)
Definition sleep_for (sigs : list Signal) : M World unit :=
  for_each sig_handler sigs.

(** [for (sensor : config.sensors()) sensor->read_temps()]. *)
Definition read_sensor (h : Hw) (s : SensorDriver) : M World unit :=
  fun w =>
    match read_temps s h (bufs w) with
    | inl e => (Throw e, w)
    | inr b => (Ok tt, with_bufs (fun _ => b) w)
    end.
Definition read_all (config : Config) (h : Hw) : M World unit :=
  for_each (read_sensor h) (sensors config).

(** [while (cur_lvl != end && **cur_lvl <= *temp_state) cur_lvl++], where
    [rest] is the range from [cur_lvl] to the end and [i] the position of
    [cur_lvl]. *)
Fixpoint scan_up_from (rest : list Level) (ts : TemperatureState) (i : nat) : nat :=
  match rest with
  | [] => i
  | l :: rest' => if le_state l ts then scan_up_from rest' ts (S i) else i
  end.
Definition scan_up (lvls : list Level) (ts : TemperatureState) (cur : nat) : nat :=
  scan_up_from (drop cur lvls) ts cur.

(** [while (cur_lvl != begin && **cur_lvl > *temp_state) cur_lvl--]; [None]
    when [cur_lvl] is dereferenced where it points to no Level. *)
Fixpoint scan_down (lvls : list Level) (ts : TemperatureState) (cur : nat)
    : option nat :=
  match cur with
  | O => Some O
  | S prev =>
      match lvls !! cur with
      | None => None
      | Some l => if gt_state l ts then scan_down lvls ts prev else Some cur
      end
  end.

(** The log line and the speed command that follow a scan; both dereference
    [cur_lvl]. *)
Definition log_and_set_speed (config : Config) (cur : nat) : M World unit :=
  l <- deref (levels config) cur ;;
  b <- gets bufs ;;
  log TF_DBG (MSG_T_STAT (tmp_sleeptime b) (tmax (temp_state b))
                         (tmax (last_temp_state b)) (deref_b_tmax b) (str l)) ;;
  fan (set_speed l).

(** The start of [run], up to the first speed command; the result is
    [cur_lvl]. *)
Definition run_init (config : Config) (h : Hw) : M World nat :=
  modify (with_bufs (fun _ =>
    {| temp_state := new_TemperatureState (num_temps config);
       last_temp_state := new_TemperatureState (num_temps config);
       tmp_sleeptime := sleeptime options |})) ;;
  modify (with_bufs (fun b => on_last_temp_state
    (set_temp_it {| it_vec := match it_vec (temp_it (temp_state b)) with
                              | Own => Other | Other => Own end;
                    it_pos := it_pos (temp_it (temp_state b)) |}) b)) ;;
  read_all config h ;;
  modify (with_bufs (on_last_temp_state (set_temp_it begin_it))) ;;
  fan fan_init ;;
  ts <- gets (fun w => temp_state (bufs w)) ;;
  let cur_lvl := scan_up (levels config) ts 0 in
  log_and_set_speed config cur_lvl ;;
  ret cur_lvl.

(** The part of a cycle before the level is chosen: swap, reset, read. *)
Definition read_phase (config : Config) (h : Hw) : M World unit :=
  modify (with_bufs swap_states) ;;
  modify (with_bufs (on_temp_state (set_temp_it begin_it))) ;;
  modify (with_bufs (on_last_temp_state (set_temp_it begin_it))) ;;
  modify (with_bufs (fun b => on_temp_state (set_bias (bias (last_temp_state b))) b)) ;;
  modify (with_bufs (on_temp_state (set_tmax (-128)))) ;;
  read_all config h.

Definition check_sensors : M World unit :=
  ts <- gets (fun w => temp_state (bufs w)) ;;
  if negb (iter_eqb (temp_it ts) (end_it ts))
  then fail fail_raises TF_ERR (SystemError MSG_SENSOR_LOST)
  else ret tt.

(** The three-way choice of a cycle; the result is the new [cur_lvl]. *)
Definition select_level (config : Config) (cur_lvl : nat) : M World nat :=
  ts <- gets (fun w => temp_state (bufs w)) ;;
  l <- deref (levels config) cur_lvl ;;
  if le_state l ts then
    let cur_lvl' := scan_up (levels config) ts cur_lvl in
    log_and_set_speed config cur_lvl' ;;
    ret cur_lvl'
  else if gt_state l ts then
    match scan_down (levels config) ts cur_lvl with
    | None => undefined
    | Some cur_lvl' =>
        log_and_set_speed config cur_lvl' ;;
        modify (with_bufs (set_tmp_sleeptime (sleeptime options))) ;;
        ret cur_lvl'
    end
  else
    fan (ping_watchdog_and_depulse l) ;;
    ret cur_lvl.

(** [// slowly return bias to 0] *)
Definition decay_bias : M World unit :=
  modify (with_bufs (fun b =>
    on_temp_state (set_bias (bias_decay (bias_level options) (bias (temp_state b)))) b)).

(** One iteration of the [while (!interrupted)] loop. *)
Definition cycle (config : Config) (env : CycleEnv Hw) (cur_lvl : nat)
    : M World nat :=
  read_phase config (hw env) ;;
  check_sensors ;;
  cur_lvl' <- select_level config cur_lvl ;;
  sleep_for (signals env) ;;
  decay_bias ;;
  ret cur_lvl'.

(** The loop on the cycles the environment provides; [StillRunning] when
    they are used up before a signal interrupts it. *)
Fixpoint run_loop (config : Config) (envs : list (CycleEnv Hw)) (cur_lvl : nat)
    : M World RunEnd :=
  i <- gets interrupted ;;
  match i with
  | Some _ => ret Returned
  | None =>
      match envs with
      | [] => ret StillRunning
      | env :: envs' =>
          cur_lvl' <- cycle config env cur_lvl ;;
          run_loop config envs' cur_lvl'
      end
  end.

Definition run (config : Config) (h : Hw) (envs : list (CycleEnv Hw))
    : M World RunEnd :=
  cur_lvl <- run_init config h ;;
  run_loop config envs cur_lvl.

End ControlLoop.

(** ** The reload loop of [main] *)

(** What [Config::read_config(config_file)] does when it is called. *)
Inductive ReadConfig (C : Type) :=
| config_ok (c : C)
| config_throws (e : Exn).
Arguments config_ok {C} c.
Arguments config_throws {C} e.

(** The environment of one call of [run]. *)
Record Episode (Hw : Type) := { first_hw : Hw; cycles : list (CycleEnv Hw) }.
Arguments first_hw {Hw} e.
Arguments cycles {Hw} e.

Inductive MainEnd := LoopLeft | InputExhausted.

(** Modelled from the spec: the exception classes are declared in error.h,
    outside this file. Section 7 of the spec: invalid configuration and
    invalid command-line values are ExpectedErrors, and this file passes
    SystemError to [fail] the way it passes InvocationError; [Bug] has the
    handler of its own in [main]. *)
Definition is_ExpectedError (e : Exn) : bool :=
  match e with
  | SystemError _ | InvocationError _ | ConfigError _ => true
  | Bug _ | StdException _ => false
  end.

(** [e.what()]; [main] calls it on a [Bug] as on a [std::exception]. *)
Definition what (e : Exn) : string :=
  match e with
  | Bug w | StdException w => w
  | SystemError _ | InvocationError _ | ConfigError _ => EmptyString
  end.

Section Main.
Context {Level SensorDriver Hw : Type}.
Context `{LevelOps Level} `{SensorOps SensorDriver Hw}.
Variable fail_raises : LogLevel -> bool.
Variable options : Options.

#[local] Abbreviation World := (World Level).
#[local] Abbreviation Config := (Config Level SensorDriver).

(** The body of [if (interrupted == SIGHUP)]: the result is the Config that
    [config] owns afterwards. *)
Definition reload (config : Config) (rc : ReadConfig Config) : M World Config :=
  log TF_INF MSG_RELOAD_CONF ;;
  config' <- match rc with
             | config_ok config_new => ret config_new
             | config_throws e =>
                 if is_ExpectedError e then
                   log TF_ERR MSG_CONF_RELOAD_ERR ;; ret config
                 else
                   log TF_ERR (MsgText (String.append "read_config: " (what e))) ;;
                   log TF_ERR MSG_CONF_RELOAD_ERR ;;
                   ret config
             end ;;
  modify (set_interrupted None) ;;
  ret config'.

(** The [do ... while (!interrupted)] loop around [run]. Each call of [run] uses
    up one episode, each reload one answer of [read_config]. *)
Fixpoint main_loop (eps : list (Episode Hw)) (rcs : list (ReadConfig Config))
    (config : Config) : M World MainEnd :=
  match eps with
  | [] => ret InputExhausted
  | ep :: eps' =>
      r <- run fail_raises options config (first_hw ep) (cycles ep) ;;
      match r with
      | StillRunning => ret InputExhausted
      | Returned =>
          i <- gets interrupted ;;
          match i, rcs with
          | Some SIGHUP, [] => ret InputExhausted
          | Some SIGHUP, rc :: rcs' =>
              config' <- reload config rc ;;
              i' <- gets interrupted ;;
              match i' with
              | None => main_loop eps' rcs' config'
              | Some _ => ret LoopLeft
              end
          | None, _ => main_loop eps' rcs config
          | Some _, _ => ret LoopLeft
          end
      end
  end.

(** [main] from the first [read_config] to the termination message. *)
Definition main_body (first : ReadConfig Config) (eps : list (Episode Hw))
    (rcs : list (ReadConfig Config)) : M World MainEnd :=
  match first with
  | config_throws e => throw e
  | config_ok config =>
      r <- main_loop eps rcs config ;;
      match r with
      | LoopLeft => log TF_INF MSG_TERM ;; ret LoopLeft
      | InputExhausted => ret InputExhausted
      end
  end.

End Main.

(** ** A concrete configuration *)

(** Modelled from the spec: the Level classes are declared outside this file.
    Sections 3 and 8 of the spec: a Level pairs thresholds with a fan speed;
    its first test is "the state has risen to at least this Level's
    engagement point", its second "the state has fallen below this Level's
    disengagement point", both on the maximum reading. *)
Record SimpleLevel := { engage : Z; disengage : Z; speed : Z }.

#[global] Instance SimpleLevel_ops : LevelOps SimpleLevel :=
  {| le_state l ts := engage l <=? tmax ts;
     gt_state l ts := tmax ts <? disengage l;
     str l := to_string (speed l) |}.

(** Modelled from the spec: the sensor drivers are declared outside this
    file. Section 4.1 of the spec: [record(value)] puts one reading at the
    cursor, advances the cursor and updates [tmax]. *)
Definition record (v : Z) (b : Buffers) : Buffers :=
  on_temp_state (fun ts =>
    {| temps := <[it_pos (temp_it ts) := v]> (temps ts);
       temp_it := {| it_vec := it_vec (temp_it ts);
                     it_pos := S (it_pos (temp_it ts)) |};
       tmax := Z.max (tmax ts) v;
       b_tmax := b_tmax ts;
       bias := bias ts |}) b.

(** A sensor is a channel number; the hardware gives the readings each
    channel delivers, none for a channel that is gone. *)
#[global] Instance Channel_ops : SensorOps nat (list (list Z)) :=
  fun s h b => inr (fold_left (fun b v => record v b) (default [] (h !! s)) b).

(** The Levels of the scenario of section 8 of the spec, each with a
    disengagement point five degrees below its engagement point. *)
Definition scenario_levels : list SimpleLevel :=
  [ {| engage := 0; disengage := 0; speed := 1 |};
    {| engage := 50; disengage := 45; speed := 2 |};
    {| engage := 70; disengage := 65; speed := 3 |} ].

Definition scenario_config : Config SimpleLevel nat :=
  {| sensors := [0%nat]; levels := scenario_levels; num_temps := 1 |}.

Definition world0 : World SimpleLevel :=
  {| bufs := {| temp_state := new_TemperatureState 1;
                last_temp_state := new_TemperatureState 1;
                tmp_sleeptime := 5 |};
     interrupted := None; fan_cmds := []; logged := [] |}.

Definition raise_errors (lvl : LogLevel) : bool :=
  match lvl with TF_ERR => true | _ => false end.

Definition scenario_options : Options := initial_options "/etc/thinkfan.conf".

(** The world once [run] has started on a first reading of 40. *)
Definition world1 : World SimpleLevel :=
  Eval vm_compute in snd (run_init scenario_options scenario_config [[40]] world0).

(** Two Levels in the order of their speeds whose engagement points are not
    in that order. *)
Definition crossed_config : Config SimpleLevel nat :=
  {| sensors := [0%nat];
     levels := [ {| engage := 60; disengage := 0; speed := 1 |};
                 {| engage := 50; disengage := 0; speed := 2 |} ];
     num_temps := 1 |}.

(** One cycle in which the sensor reads [t] and the signals [sigs] arrive. *)
Definition reading (t : Z) (sigs : list Signal) : CycleEnv (list (list Z)) :=
  {| hw := [[t]]; signals := sigs |}.

(** The world in which a sensor driver has shortened the hold timer to 2. *)
Definition world_held : World SimpleLevel :=
  Eval vm_compute in with_bufs (set_tmp_sleeptime 2) world1.

(** That world after a cycle that read 55 with the lowest Level selected: the
    highest Level is selected. *)
Definition world_high : World SimpleLevel :=
  Eval vm_compute in
    snd (cycle raise_errors scenario_options scenario_config (reading 55 []) 0
               world_held).

(** A call of [run] that starts on 40, reads 47 and receives SIGHUP while it
    sleeps, and the world it returns in. *)
Definition scenario_episode : Episode (list (list Z)) :=
  {| first_hw := [[40]]; cycles := [reading 47 [SIGHUP]] |}.

Definition world_hup : World SimpleLevel :=
  Eval vm_compute in
    snd (run raise_errors scenario_options scenario_config
             (first_hw scenario_episode) (cycles scenario_episode) world0).

(** The call of [run] that follows the reload: it starts on 47, reads 47 and
    receives SIGTERM while it sleeps. *)
Definition closing_episode : Episode (list (list Z)) :=
  {| first_hw := [[47]]; cycles := [reading 47 [SIGTERM]] |}.

(** The world after a reload in which [read_config] rejected the file, and
    the world in which the call of [run] that follows returns. *)
Definition world_reload_failed : World SimpleLevel :=
  Eval vm_compute in
    snd (reload scenario_config (config_throws (ConfigError (MsgText "syntax error")))
                world_hup).

Definition world_resumed : World SimpleLevel :=
  Eval vm_compute in
    snd (run raise_errors scenario_options scenario_config
             (first_hw closing_episode) (cycles closing_episode) world_reload_failed).

(** The same with a reload that read [crossed_config]. *)
Definition world_reloaded : World SimpleLevel :=
  Eval vm_compute in snd (reload scenario_config (config_ok crossed_config) world_hup).

Definition world_replaced : World SimpleLevel :=
  Eval vm_compute in
    snd (run raise_errors scenario_options crossed_config
             (first_hw closing_episode) (cycles closing_episode) world_reloaded).

(** ** The claims of the specification, as it words them *)

(** One decay step as the specification describes it: the magnitude of the
    bias strictly decreases and its sign does not change. *)
Definition decay_step_ok (bias_level b : Q) : Prop :=
  (Qabs (bias_decay bias_level b) < Qabs b
   /\ (0 < b -> 0 <= bias_decay bias_level b)
   /\ (b < 0 -> bias_decay bias_level b <= 0))%Q.

Section SpecSelection.
Context {Level : Type} `{LevelOps Level}.

(** The starting selection as the specification describes it: the highest
    Level whose test holds for the readings, [None] when there is none. *)
Fixpoint highest_engaged_from (rest : list Level) (ts : TemperatureState)
    (i : nat) : option nat :=
  match rest with
  | [] => None
  | l :: rest' =>
      match highest_engaged_from rest' ts (S i) with
      | Some j => Some j
      | None => if le_state l ts then Some i else None
      end
  end.
Definition highest_engaged (lvls : list Level) (ts : TemperatureState)
    : option nat :=
  highest_engaged_from lvls ts 0.

End SpecSelection.

(** ** Vocabulary of the further properties *)

(** A fan command for a Level of [lvls]; [fan_init] is for no Level. *)
Definition commands_level {Level} (lvls : list Level) (c : FanCmd Level) : Prop :=
  match c with
  | fan_init => False
  | set_speed l | ping_watchdog_and_depulse l => l ∈ lvls
  end.

(** The signals whose handler writes [interrupted]. *)
Definition writes_interrupted (sg : Signal) : bool :=
  match sg with
  | SIGHUP | SIGINT | SIGTERM => true
  | SIGUSR1 | SIGSEGV | SIGOTHER => false
  end.

(** The last signal of [sigs] whose handler writes [interrupted], or [i] when
    there is none. *)
Definition last_interrupt (sigs : list Signal) (i : option Signal) : option Signal :=
  fold_left (fun i sg => if writes_interrupted sg then Some sg else i) sigs i.

(** The number of cycles the loop of [run] goes through when it starts with
    [interrupted] clear: the loop condition stops it after the first cycle
    during whose sleep SIGHUP, SIGINT or SIGTERM arrives. *)
Fixpoint cycles_until_interrupt {Hw} (envs : list (CycleEnv Hw)) : nat :=
  match envs with
  | [] => 0
  | env :: envs' =>
      if existsb writes_interrupted (signals env) then 1
      else S (cycles_until_interrupt envs')
  end.

(** Two worlds that differ in their log at most. *)
Definition same_but_log {Level} (w1 w2 : World Level) : Prop :=
  bufs w1 = bufs w2 /\ interrupted w1 = interrupted w2 /\ fan_cmds w1 = fan_cmds w2.

(** The signals left when the status requests are taken out. *)
Definition without_SIGUSR1 (sigs : list Signal) : list Signal :=
  List.filter (fun sg => match sg with SIGUSR1 => false | _ => true end) sigs.

(** A Level interface in which the highest Level has no engagement point:
    the [<=] test of [top_level] never holds, the other Levels are
    [SimpleLevel]s. *)
Inductive CappedLevel :=
| below_top (l : SimpleLevel)
| top_level (disengage_at speed_at_top : Z).

#[global] Instance CappedLevel_ops : LevelOps CappedLevel :=
  {| le_state l ts := match l with
                      | below_top l => le_state l ts
                      | top_level _ _ => false
                      end;
     gt_state l ts := match l with
                      | below_top l => gt_state l ts
                      | top_level d _ => tmax ts <? d
                      end;
     str l := match l with
              | below_top l => str l
              | top_level _ s => to_string s
              end |}.

(** The Levels of the scenario with the highest one turned into the top. *)
Definition capped_config : Config CappedLevel nat :=
  {| sensors := [0%nat];
     levels := [ below_top {| engage := 0; disengage := 0; speed := 1 |};
                 below_top {| engage := 50; disengage := 45; speed := 2 |};
                 top_level 65 3 ];
     num_temps := 1 |}.

Definition capped_world0 : World CappedLevel :=
  {| bufs := bufs world0; interrupted := None; fan_cmds := []; logged := [] |}.

(** [fail] raising at every level. *)
Definition raise_all (lvl : LogLevel) : bool := true.

(** The world of the scenario with a bias of 4 in the current state. *)
Definition world_biased : World SimpleLevel :=
  Eval vm_compute in with_bufs (on_temp_state (set_bias 4)) world1.

(** The command line [-p -s 3], and [-s 3] alone. *)
Definition depulse_then_sleep : list CmdOpt :=
  [opt_p None; opt_s (Some (parsed 3 1%nat 1%nat))].

(** * Properties *)

(** ** The status report *)

Lemma string_append_assoc (a b c : string) :
  String.append (String.append a b) c = String.append a (String.append b c).
Proof. induction a as [|ch a IH]; simpl; [reflexivity | now rewrite IH]. Qed.

Lemma string_length_append (a b : string) :
  String.length (String.append a b) = (String.length a + String.length b)%nat.
Proof. induction a as [|ch a IH]; simpl; [reflexivity | now rewrite IH]. Qed.

Lemma substring_prefix (a b : string) :
  substring 0 (String.length a) (String.append a b) = a.
Proof.
  induction a as [|ch a IH]; simpl.
  - destruct b; reflexivity.
  - now rewrite IH.
Qed.

(** Dropping the two last characters of a string that ends in [", "]. *)
Lemma trim_separator (a : string) :
  let rv := String.append a ", " in
  substr0 (String.length rv - 2) rv = a.
Proof.
  simpl. unfold substr0. rewrite string_length_append. simpl.
  replace (String.length a + 2 - 2)%nat with (String.length a) by lia.
  apply substring_prefix.
Qed.

(** The loop of [report_tstat] appends to what it has. *)
Lemma report_loop_append (ts : list Z) (acc : string) :
  fold_left (fun rv temp => String.append rv (String.append (to_string temp) ", "))
            ts acc
  = String.append acc
      (fold_left (fun rv temp => String.append rv (String.append (to_string temp) ", "))
                 ts EmptyString).
Proof.
  revert acc. induction ts as [|t ts IH]; intros acc; simpl.
  - induction acc as [|ch acc IHacc]; simpl; [reflexivity | now rewrite <- IHacc].
  - rewrite IH. rewrite (IH (String.append _ _)).
    now rewrite string_append_assoc.
Qed.

(** For a non-empty buffer the loop yields the joined readings followed by
    one more separator. *)
Lemma report_loop_joined (t : Z) (ts : list Z) :
  fold_left (fun rv temp => String.append rv (String.append (to_string temp) ", "))
            (t :: ts) EmptyString
  = String.append (String.concat ", " (map to_string (t :: ts))) ", ".
Proof.
  revert t. induction ts as [|t' ts IH]; intros t.
  - reflexivity.
  - change (fold_left _ (t :: t' :: ts) EmptyString)
      with (fold_left (fun rv temp => String.append rv (String.append (to_string temp) ", "))
                      (t' :: ts) (String.append (to_string t) ", ")).
    rewrite report_loop_append, IH.
    change (String.concat ", " (map to_string (t :: t' :: ts)))
      with (String.append (to_string t)
              (String.append ", " (String.concat ", " (map to_string (t' :: ts))))).
    now rewrite !string_append_assoc.
Qed.

(** C8, as amended: for every non-empty sequence of readings t1..tn in the
    active buffer, the status report is "Current temperatures: " followed by
    the readings joined with ", ", the trailing separator being trimmed. *)
Theorem report_tstat_nonempty (ts : TemperatureState) :
  temps ts <> [] -> report_tstat ts = spec_report (temps ts).
Proof.
  unfold report_tstat, spec_report. destruct (temps ts) as [|t l]; [congruence|].
  intros _. rewrite report_loop_append, report_loop_joined.
  rewrite <- string_append_assoc. apply trim_separator.
Qed.

(** Three readings, one of them negative. *)
Lemma report_tstat_nonempty_witness :
  temps {| temps := [40; -3; 0]; temp_it := begin_it; tmax := 40;
           b_tmax := begin_it; bias := 0 |} <> []
  /\ report_tstat {| temps := [40; -3; 0]; temp_it := begin_it; tmax := 40;
                     b_tmax := begin_it; bias := 0 |}
     = "Current temperatures: 40, -3, 0"%string.
Proof.
  split; [discriminate|].
  rewrite (report_tstat_nonempty
             {| temps := [40; -3; 0]; temp_it := begin_it; tmax := 40;
                b_tmax := begin_it; bias := 0 |}); [reflexivity | discriminate].
Defined.

(** C8, counterexample: with no reading in the buffer the trimming removes
    the end of the heading, so the report is not the heading followed by the
    (empty) joined readings. *)
Lemma report_tstat_empty :
  report_tstat (new_TemperatureState 0) = "Current temperatures"%string
  /\ spec_report (temps (new_TemperatureState 0)) = "Current temperatures: "%string
  /\ report_tstat (new_TemperatureState 0)
     <> spec_report (temps (new_TemperatureState 0)).
Proof. repeat split; try reflexivity. discriminate. Qed.

(** ** The bias scale of the command line *)

(** A value that the [-b] case stores without a complaint is in range. *)
Lemma set_option_b_in_range (fail_raises : LogLevel -> bool)
    (b : Q) (invalid len : nat) (s s' : OptState) :
  fail_raises TF_WRN = true ->
  set_option fail_raises (opt_b (Some (parsed b invalid len))) s = (Ok None, s') ->
  (bias_level (opts s') == b / 10 /\ -1 <= bias_level (opts s') <= 3)%Q.
Proof.
  intros Hr. unfold set_option, fail, bind. rewrite Hr.
  destruct (invalid <? len)%nat; [discriminate|]. cbn.
  destruct (Qlt_le_dec b (-10)) as [|Hlo]; [discriminate|].
  destruct (Qlt_le_dec 30 b) as [|Hhi]; [discriminate|].
  cbn. intros [= <-]. cbn. split; [reflexivity|].
  split; apply Qle_shift_div_l || apply Qle_shift_div_r; try reflexivity; lra.
Qed.

(** C9, on the code: without a [-b] option [set_options] leaves [bias_level]
    at its initialiser 5, which was not divided by 10 and lies outside
    [-1.0, 3.0]. *)
Theorem default_bias_level_out_of_range
    (fail_raises : LogLevel -> bool) (CONFIG_DEFAULT : string) :
  let s0 := {| opts := initial_options CONFIG_DEFAULT; opt_log := [] |} in
  set_options fail_raises [] s0 = (Ok 0, s0)
  /\ bias_level (opts s0) = 5%Q
  /\ ~ (-1 <= bias_level (opts s0) <= 3)%Q.
Proof.
  repeat split. cbn. intros [_ Hhi]. revert Hhi. apply Qlt_not_le. reflexivity.
Qed.

(** ** Bias decay *)

Lemma bias_decay_zero (bl b : Q) : (b == 0)%Q -> bias_decay bl b = b.
Proof. intros Hb. unfold bias_decay. destruct (Qeq_dec b 0); [reflexivity | contradiction]. Qed.

Lemma bias_decay_small (bl b : Q) : (0 < b)%Q -> (b < 1 # 2)%Q -> bias_decay bl b = 0%Q.
Proof.
  intros H0 H1. unfold bias_decay.
  destruct (Qeq_dec b 0) as [E|_]; [rewrite E in H0; lra|].
  destruct (Qlt_le_dec 0 b); [|lra].
  destruct (Qlt_le_dec b (1 # 2)); [reflexivity | lra].
Qed.

Lemma bias_decay_large (bl b : Q) :
  (1 # 2 <= b)%Q -> bias_decay bl b = (b - b / 2 * bl)%Q.
Proof.
  intros H1. unfold bias_decay.
  destruct (Qeq_dec b 0) as [E|_]; [rewrite E in H1; lra|].
  destruct (Qlt_le_dec 0 b); [|lra].
  destruct (Qlt_le_dec b (1 # 2)); [lra | reflexivity].
Qed.

Lemma bias_decay_small_neg (bl b : Q) :
  (- (1 # 2) < b)%Q -> (b < 0)%Q -> bias_decay bl b = 0%Q.
Proof.
  intros H0 H1. unfold bias_decay.
  destruct (Qeq_dec b 0) as [E|_]; [rewrite E in H1; lra|].
  destruct (Qlt_le_dec 0 b); [lra|].
  destruct (Qlt_le_dec (- (1 # 2)) b); [reflexivity | lra].
Qed.

Lemma decay_steps_zero (n : nat) (bl b : Q) : (b == 0)%Q -> (decay_steps n bl b == 0)%Q.
Proof.
  induction n as [|n IH]; intros Hb; simpl; [exact Hb|].
  rewrite bias_decay_zero by exact Hb. now apply IH.
Qed.

Lemma bias_decay_large_bounds (bl b : Q) :
  (0 < bl)%Q -> (bl <= 2)%Q -> (1 # 2 <= b)%Q ->
  (0 <= b - b / 2 * bl /\ b - b / 2 * bl <= b - bl * (1 # 4))%Q.
Proof.
  intros Hl Hu Hb.
  assert (H1 : (b * bl <= b * 2)%Q) by (apply Qmult_le_l; lra).
  assert (H2 : ((1 # 2) * bl <= b * bl)%Q) by (apply Qmult_le_compat_r; lra).
  split.
  - assert (E : (b - b / 2 * bl == (b * 2 - b * bl) * (1 # 2))%Q) by field.
    rewrite E. lra.
  - assert (E : (b - b / 2 * bl == b - (b * bl) * (1 # 2))%Q) by field.
    rewrite E. lra.
Qed.

Lemma decay_reaches_zero_within (n : nat) (bl : Q) :
  (0 < bl)%Q -> (bl <= 2)%Q ->
  forall b, (0 <= b)%Q -> (b < (1 # 2) + inject_Z (Z.of_nat n) * (bl * (1 # 4)))%Q ->
  (decay_steps (S n) bl b == 0)%Q.
Proof.
  intros Hl Hu. induction n as [|n IH]; intros b H0 Hb.
  - simpl. destruct (Qeq_dec b 0) as [E|N].
    + now rewrite bias_decay_zero.
    + rewrite bias_decay_small; [reflexivity | lra | ].
      change (inject_Z (Z.of_nat 0)) with 0%Q in Hb. lra.
  - change (decay_steps (S (S n)) bl b) with (decay_steps (S n) bl (bias_decay bl b)).
    destruct (Qeq_dec b 0) as [E|N].
    { rewrite bias_decay_zero by exact E. now apply decay_steps_zero. }
    destruct (Qlt_le_dec b (1 # 2)) as [Hs|Hge].
    { rewrite bias_decay_small by lra. now apply decay_steps_zero. }
    rewrite bias_decay_large by exact Hge.
    destruct (bias_decay_large_bounds bl b Hl Hu Hge) as [B0 B1].
    apply IH; [exact B0|].
    rewrite Nat2Z.inj_succ in Hb. unfold Z.succ in Hb. rewrite inject_Z_plus in Hb.
    change (inject_Z 1) with 1%Q in Hb.
    assert (E : ((inject_Z (Z.of_nat n) + 1) * (bl * (1 # 4)) ==
                 inject_Z (Z.of_nat n) * (bl * (1 # 4)) + bl * (1 # 4))%Q) by ring.
    rewrite E in Hb. lra.
Qed.

Lemma decay_budget (bl b : Q) :
  (0 < bl)%Q -> (0 < b)%Q ->
  (b < (1 # 2) + inject_Z (Z.of_nat (Z.to_nat (4 * Qnum b * Zpos (Qden bl)))) * (bl * (1 # 4)))%Q.
Proof.
  destruct b as [p q], bl as [r s]. unfold Qlt, Qmult, Qplus, inject_Z. simpl.
  intros Hr Hp. rewrite Z2Nat.id by lia.
  rewrite !Pos2Z.inj_mul.
  assert (Hs : 0 < Z.pos s) by lia. assert (Hq : 0 < Z.pos q) by lia.
  revert Hr Hp Hs Hq. generalize (Z.pos s) (Z.pos q). intros S Q Hr Hp Hs Hq.
  assert (H1 : 1 * (p * S) <= (r * Q) * (p * S)).
  { apply Z.mul_le_mono_nonneg_r; nia. }
  nia.
Qed.

(** The step over the rationals, the idealisation of the [float] step that
    the loop lemmas use: for every bias > 0 and every bias_level with
    0 < bias_level <= 2 one decay step strictly decreases the bias and never
    makes it negative, and repeated steps reach exactly 0: a bias below 0.5
    snaps to 0, otherwise bias/2 * bias_level is subtracted from it. A
    negative bias above -0.5 snaps to 0 as well. *)
Lemma bias_decay_positive (bias_level b : Q) :
  (0 < bias_level)%Q -> (bias_level <= 2)%Q -> (0 < b)%Q ->
  ((b < 1 # 2)%Q -> bias_decay bias_level b = 0%Q)
  /\ ((1 # 2 <= b)%Q -> bias_decay bias_level b = (b - b / 2 * bias_level)%Q)
  /\ (0 <= bias_decay bias_level b)%Q
  /\ (bias_decay bias_level b < b)%Q
  /\ (exists n, decay_steps n bias_level b == 0)%Q
  /\ (forall b', (- (1 # 2) < b')%Q -> (b' < 0)%Q -> bias_decay bias_level b' = 0%Q).
Proof.
  intros Hl Hu Hb. split; [|split; [|split; [|split; [|split]]]].
  - now apply bias_decay_small.
  - apply bias_decay_large.
  - destruct (Qlt_le_dec b (1 # 2)).
    + rewrite bias_decay_small by assumption. lra.
    + rewrite bias_decay_large by assumption.
      now apply bias_decay_large_bounds.
  - destruct (Qlt_le_dec b (1 # 2)).
    + rewrite bias_decay_small by assumption. exact Hb.
    + rewrite bias_decay_large by assumption.
      destruct (bias_decay_large_bounds bias_level b Hl Hu) as [_ B]; [assumption|]. lra.
  - eexists. apply decay_reaches_zero_within; [exact Hl | exact Hu | lra |].
    now apply decay_budget.
  - intros b'. apply bias_decay_small_neg.
Qed.

(** A bias of 4 with bias_level 1. *)
Lemma bias_decay_positive_witness :
  (0 < 1)%Q /\ (1 <= 2)%Q /\ (0 < 4)%Q
  /\ (bias_decay 1 4 = 4 - 4 / 2 * 1)%Q /\ (bias_decay 1 4 < 4)%Q.
Proof.
  assert (Hl : (0 < 1)%Q) by reflexivity.
  assert (Hu : (1 <= 2)%Q) by discriminate.
  assert (Hb : (0 < 4)%Q) by reflexivity.
  destruct (bias_decay_positive 1 4 Hl Hu Hb) as (_ & Hlarge & _ & Hlt & _).
  split; [exact Hl|]. split; [exact Hu|]. split; [exact Hb|].
  split; [apply Hlarge; discriminate | exact Hlt].
Defined.

(** Over the rationals as in binary32: with bias_level 3, the top of the
    accepted range, a bias of 1 becomes -0.5 and changes sign; with
    bias_level 1 a bias of -1 becomes -1.5 and grows in magnitude. *)
Lemma bias_decay_overshoots :
  (bias_decay 3 1 == - (1 # 2))%Q /\ ~ decay_step_ok 3 1
  /\ (bias_decay 1 (-1) == - (3 # 2))%Q /\ ~ decay_step_ok 1 (-1)
  /\ Binary32.bias_decay32 (Binary32.of_Z 3 0) (Binary32.of_Z 1 0) = Binary32.of_Z (-1) (-1)
  /\ Binary32.bias_decay32 (Binary32.of_Z 1 0) (Binary32.of_Z (-1) 0) = Binary32.of_Z (-3) (-1).
Proof.
  split; [reflexivity|]. split; [|split; [reflexivity|split; [|split; reflexivity]]].
  - intros (_ & Hpos & _). specialize (Hpos eq_refl). revert Hpos. now vm_compute.
  - intros (Habs & _). revert Habs. now vm_compute.
Qed.

(** ** Bias decay in [float] arithmetic *)

Lemma bias_decay32_zero (bl b : Binary32.float) :
  Binary32.eqb b Binary32.zero = true -> Binary32.bias_decay32 bl b = b.
Proof. unfold Binary32.bias_decay32. now intros ->. Qed.

Lemma decay_steps32_zero (n : nat) (bl : Binary32.float) :
  decay_steps32 n bl Binary32.zero = Binary32.zero.
Proof. induction n as [|n IH]; simpl; [reflexivity | exact IH]. Qed.

Lemma bias_decay32_snap_pos (bl b : Binary32.float) :
  Binary32.ltb Binary32.zero b = true -> Binary32.ltb b Binary32.half = true ->
  Binary32.bias_decay32 bl b = Binary32.zero
  /\ Binary32.ltb (SpecFloat.SFabs Binary32.zero) (SpecFloat.SFabs b) = true.
Proof.
  intros H0 H1. unfold Binary32.bias_decay32. rewrite H0, H1.
  destruct b as [s|s| |s m e]; try discriminate; destruct s; try discriminate;
    split; reflexivity.
Qed.

Lemma bias_decay32_snap_neg (bl b : Binary32.float) :
  Binary32.ltb b Binary32.zero = true ->
  Binary32.ltb (SpecFloat.SFopp Binary32.half) b = true ->
  Binary32.bias_decay32 bl b = Binary32.zero
  /\ Binary32.ltb (SpecFloat.SFabs Binary32.zero) (SpecFloat.SFabs b) = true.
Proof.
  intros H0 H1. unfold Binary32.bias_decay32. rewrite H1.
  destruct b as [s|s| |s m e]; try discriminate; destruct s; try discriminate;
    split; reflexivity.
Qed.

Lemma bias_decay32_large_pos (bl b : Binary32.float) :
  Binary32.ltb Binary32.zero b = true -> Binary32.ltb b Binary32.half = false ->
  Binary32.bias_decay32 bl b
  = Binary32.sub b (Binary32.mul (Binary32.div b Binary32.two) bl).
Proof.
  intros H0 H1. unfold Binary32.bias_decay32. rewrite H0, H1.
  destruct b as [s|s| |s m e]; try discriminate; destruct s; try discriminate; reflexivity.
Qed.

Lemma bias_decay32_large_neg (bl b : Binary32.float) :
  Binary32.ltb b Binary32.zero = true ->
  Binary32.ltb (SpecFloat.SFopp Binary32.half) b = false ->
  Binary32.bias_decay32 bl b
  = Binary32.add b (Binary32.mul (Binary32.div b Binary32.two) bl).
Proof.
  intros H0 H1. unfold Binary32.bias_decay32. rewrite H1.
  destruct b as [s|s| |s m e]; try discriminate; destruct s; try discriminate; reflexivity.
Qed.




(** ** The monad *)

Lemma bind_ok {S A B} (c : M S A) (k : A -> M S B) (s s' : S) (a : A) :
  c s = (Ok a, s') -> bind c k s = k a s'.
Proof. unfold bind. now intros ->. Qed.

Lemma bind_throw {S A B} (c : M S A) (k : A -> M S B) (s s' : S) (e : Exn) :
  c s = (Throw e, s') -> bind c k s = (Throw e, s').
Proof. unfold bind. now intros ->. Qed.

Lemma bind_undefined {S A B} (c : M S A) (k : A -> M S B) (s s' : S) :
  c s = (Undefined, s') -> bind c k s = (Undefined, s').
Proof. unfold bind. now intros ->. Qed.

(** A property of the state that every step of a [for_each] keeps is kept by
    the whole loop, whatever its outcome. *)
Lemma for_each_invariant {S A} (P : S -> S -> Prop) (f : A -> M S unit) :
  (forall s, P s s) ->
  (forall s1 s2 s3, P s1 s2 -> P s2 s3 -> P s1 s3) ->
  (forall a s o s', f a s = (o, s') -> P s s') ->
  forall l s o s', for_each f l s = (o, s') -> P s s'.
Proof.
  intros Hrefl Htrans Hstep. induction l as [|a l IH]; intros s o s'; simpl.
  - unfold ret. intros [= _ <-]. apply Hrefl.
  - unfold bind. destruct (f a s) as [[[]| |] s1] eqn:Ef.
    + intros Hl. eapply Htrans; [eapply Hstep; exact Ef | eapply IH; exact Hl].
    + intros [= _ <-]. eapply Hstep; exact Ef.
    + intros [= _ <-]. eapply Hstep; exact Ef.
Qed.

Lemma iter_eqb_eq (a b : iter) : iter_eqb a b = true <-> a = b.
Proof.
  destruct a as [va pa], b as [vb pb]. unfold iter_eqb. simpl.
  destruct va, vb; rewrite ?Nat.eqb_eq; split; intros E;
    try discriminate; try (inversion E; reflexivity); try (subst; reflexivity).
Qed.

Section LoopProperties.
Context {Level SensorDriver Hw : Type}.
Context `{LevelOps Level} `{SensorOps SensorDriver Hw}.
Variable fail_raises : LogLevel -> bool.
Variable options : Options.

#[local] Abbreviation World := (World Level).
#[local] Abbreviation Config := (Config Level SensorDriver).

(** *** The scans *)

Lemma scan_up_from_spec (rest : list Level) (ts : TemperatureState) (i : nat) :
  let k := scan_up_from rest ts i in
  (i <= k <= i + length rest)%nat
  /\ (forall j l, (j < k - i)%nat -> rest !! j = Some l -> le_state l ts = true)
  /\ (forall l, rest !! (k - i)%nat = Some l -> le_state l ts = false).
Proof.
  revert i. induction rest as [|l0 rest IH]; intros i; simpl.
  - split; [lia|]. split; [intros j l Hj; lia|]. intros l. now rewrite lookup_nil.
  - destruct (le_state l0 ts) eqn:E.
    + specialize (IH (S i)). simpl in IH. destruct IH as (Hb & Hall & Hstop).
      split; [lia|]. split.
      * intros [|j] l Hj; simpl; [now intros [= <-]|].
        apply Hall. lia.
      * intros l. replace (scan_up_from rest ts (S i) - i)%nat
          with (S (scan_up_from rest ts (S i) - S i)) by lia.
        simpl. apply Hstop.
    + split; [lia|]. split; [intros j l Hj; lia|].
      rewrite Nat.sub_diag. simpl. now intros l [= <-].
Qed.

(** The forward scan stops at the first position from [cur] on whose Level
    fails the test, or past the end. *)
Lemma scan_up_spec (lvls : list Level) (ts : TemperatureState) (cur : nat) :
  (cur <= length lvls)%nat ->
  let k := scan_up lvls ts cur in
  (cur <= k <= length lvls)%nat
  /\ (forall j l, (cur <= j < k)%nat -> lvls !! j = Some l -> le_state l ts = true)
  /\ (forall l, lvls !! k = Some l -> le_state l ts = false).
Proof.
  intros Hcur. unfold scan_up.
  destruct (scan_up_from_spec (drop cur lvls) ts cur) as (Hb & Hall & Hstop).
  rewrite length_drop in Hb. simpl. split; [lia|]. split.
  - intros j l Hj Hl. apply (Hall (j - cur)%nat); [lia|].
    rewrite lookup_drop. now replace (cur + (j - cur))%nat with j by lia.
  - intros l Hl. apply Hstop. rewrite lookup_drop.
    now replace (cur + (scan_up_from (drop cur lvls) ts cur - cur))%nat
      with (scan_up_from (drop cur lvls) ts cur) by lia.
Qed.

Lemma scan_up_stays (lvls : list Level) (ts : TemperatureState) (cur : nat) :
  (forall l, lvls !! cur = Some l -> le_state l ts = false) ->
  scan_up lvls ts cur = cur.
Proof.
  intros Hstop. unfold scan_up. destruct (drop cur lvls) as [|l rest] eqn:E; simpl.
  - reflexivity.
  - assert (Hl : lvls !! cur = Some l).
    { rewrite <- (Nat.add_0_r cur), <- lookup_drop, E. reflexivity. }
    now rewrite (Hstop l Hl).
Qed.

(** From a valid position the backward scan stays among the Levels. *)
Lemma scan_down_spec (lvls : list Level) (ts : TemperatureState) (cur : nat) :
  (cur < length lvls)%nat ->
  exists k, scan_down lvls ts cur = Some k /\ (k <= cur)%nat
    /\ (forall j l, (k < j <= cur)%nat -> lvls !! j = Some l -> gt_state l ts = true)
    /\ (forall l, (0 < k)%nat -> lvls !! k = Some l -> gt_state l ts = false).
Proof.
  induction cur as [|prev IH]; intros Hcur; simpl.
  - exists 0%nat. split; [reflexivity|]. split; [lia|]. split; intros; lia.
  - destruct (lookup_lt_is_Some_2 lvls (S prev) Hcur) as [l Hl]. rewrite Hl.
    destruct (gt_state l ts) eqn:E.
    + destruct IH as (k & Hk & Hle & Hall & Hstop); [lia|].
      exists k. split; [exact Hk|]. split; [lia|]. split; [|exact Hstop].
      intros j l' Hj Hl'. destruct (decide (j = S prev)) as [->|Hne].
      * rewrite Hl in Hl'. now inversion Hl'; subst.
      * apply (Hall j); [lia | exact Hl'].
    + exists (S prev). split; [reflexivity|]. split; [lia|]. split; [intros; lia|].
      intros l' _ Hl'. rewrite Hl in Hl'. now inversion Hl'; subst.
Qed.


(** *** What the phases of a cycle leave alone *)

Lemma read_sensor_frame (h : Hw) (s : SensorDriver) (w : World) o w' :
  read_sensor h s w = (o, w') ->
  fan_cmds w' = fan_cmds w /\ logged w' = logged w /\ interrupted w' = interrupted w.
Proof.
  unfold read_sensor. destruct (read_temps s h (bufs w)); intros [= _ <-]; auto.
Qed.

Lemma read_all_frame (config : Config) (h : Hw) (w : World) o w' :
  read_all config h w = (o, w') ->
  fan_cmds w' = fan_cmds w /\ logged w' = logged w /\ interrupted w' = interrupted w.
Proof.
  unfold read_all.
  apply (for_each_invariant
           (fun w w' : World => fan_cmds w' = fan_cmds w /\ logged w' = logged w
                        /\ interrupted w' = interrupted w)).
  - auto.
  - intros s1 s2 s3 (-> & -> & ->) (-> & -> & ->). auto.
  - intros a s o' s'. apply read_sensor_frame.
Qed.

Lemma read_phase_frame (config : Config) (h : Hw) (w : World) o w' :
  read_phase config h w = (o, w') ->
  fan_cmds w' = fan_cmds w /\ logged w' = logged w /\ interrupted w' = interrupted w.
Proof.
  unfold read_phase, bind, modify. intros Hr. now apply read_all_frame in Hr.
Qed.

Lemma sig_handler_frame (sg : Signal) (w : World) o w' :
  sig_handler sg w = (o, w') ->
  fan_cmds w' = fan_cmds w /\ bufs w' = bufs w.
Proof. destruct sg; cbn; intros [= _ <-]; auto. Qed.

Lemma sleep_for_frame (sigs : list Signal) (w : World) o w' :
  sleep_for sigs w = (o, w') ->
  fan_cmds w' = fan_cmds w /\ bufs w' = bufs w.
Proof.
  unfold sleep_for.
  apply (for_each_invariant
           (fun w w' : World => fan_cmds w' = fan_cmds w /\ bufs w' = bufs w)).
  - auto.
  - intros s1 s2 s3 (-> & ->) (-> & ->). auto.
  - intros a s o' s'. apply sig_handler_frame.
Qed.

Lemma sleep_for_returns (sigs : list Signal) (w : World) :
  SIGSEGV ∉ sigs -> exists w', sleep_for sigs w = (Ok tt, w').
Proof.
  unfold sleep_for. revert w. induction sigs as [|sg sigs IH]; intros w Hno; simpl.
  - eexists. reflexivity.
  - assert (Hsg : sg <> SIGSEGV) by (intros ->; apply Hno; left).
    assert (Hrest : SIGSEGV ∉ sigs) by (intros Hin; apply Hno; now right).
    unfold bind. destruct sg; try congruence; cbn; apply IH; exact Hrest.
Qed.

(** After the level is chosen, the sleep and the bias decay issue no fan
    command and leave the hold timer alone. *)
Lemma cycle_tail (sigs : list Signal) (c : nat) (w : World) o w' :
  (sleep_for sigs ;; decay_bias options ;; ret c) w = (o, w') ->
  fan_cmds w' = fan_cmds w
  /\ tmp_sleeptime (bufs w') = tmp_sleeptime (bufs w)
  /\ (forall c', o = Ok c' -> c' = c)
  /\ (SIGSEGV ∉ sigs -> o = Ok c).
Proof.
  unfold bind. destruct (sleep_for sigs w) as [[[]| |] ws] eqn:Es.
  - destruct (sleep_for_frame _ _ _ _ Es) as (Hf & Hb).
    cbn. intros [= <- <-]. cbn. rewrite Hf, Hb. repeat split; congruence.
  - destruct (sleep_for_frame _ _ _ _ Es) as (Hf & Hb).
    intros [= <- <-]. rewrite Hf, Hb. repeat split; try congruence.
    intros Hno. destruct (sleep_for_returns sigs w Hno) as [w2 E2]. congruence.
  - destruct (sleep_for_frame _ _ _ _ Es) as (Hf & Hb).
    intros [= <- <-]. rewrite Hf, Hb. repeat split; try congruence.
    intros Hno. destruct (sleep_for_returns sigs w Hno) as [w2 E2]. congruence.
Qed.

(** *** The check on the cursor *)

Lemma check_sensors_complete (w : World) :
  temp_it (temp_state (bufs w)) = end_it (temp_state (bufs w)) ->
  check_sensors fail_raises w = (Ok tt, w).
Proof.
  intros E. unfold check_sensors, bind, gets.
  apply iter_eqb_eq in E. now rewrite E.
Qed.

Lemma check_sensors_lost (w : World) :
  fail_raises TF_ERR = true ->
  temp_it (temp_state (bufs w)) <> end_it (temp_state (bufs w)) ->
  check_sensors fail_raises w = (Throw (SystemError MSG_SENSOR_LOST), w).
Proof.
  intros Hr N. unfold check_sensors, bind, gets.
  destruct (iter_eqb _ _) eqn:E; [apply iter_eqb_eq in E; contradiction|].
  cbn. unfold fail. now rewrite Hr.
Qed.

(** *** The three branches of the choice *)

Lemma select_level_ping (config : Config) (cur : nat) (w : World) (l : Level) :
  levels config !! cur = Some l ->
  le_state l (temp_state (bufs w)) = false ->
  gt_state l (temp_state (bufs w)) = false ->
  select_level options config cur w = (Ok cur, issue (ping_watchdog_and_depulse l) w).
Proof.
  intros Hl Hle Hgt. unfold select_level, bind, gets, deref. rewrite Hl. cbn.
  now rewrite Hle, Hgt.
Qed.

Lemma log_and_set_speed_ok (config : Config) (k : nat) (w : World) (l : Level) :
  levels config !! k = Some l ->
  exists w', log_and_set_speed config k w = (Ok tt, w')
    /\ fan_cmds w' = fan_cmds w ++ [set_speed l] /\ bufs w' = bufs w.
Proof.
  intros Hl. unfold log_and_set_speed, bind, deref. rewrite Hl. cbn.
  eexists. split; [reflexivity|]. split; reflexivity.
Qed.

Lemma log_and_set_speed_undefined (config : Config) (k : nat) (w : World) :
  levels config !! k = None -> log_and_set_speed config k w = (Undefined, w).
Proof. intros Hl. unfold log_and_set_speed, bind, deref. now rewrite Hl. Qed.

Lemma select_level_forward (config : Config) (cur : nat) (w : World) (l l' : Level) :
  levels config !! cur = Some l ->
  le_state l (temp_state (bufs w)) = true ->
  levels config !! scan_up (levels config) (temp_state (bufs w)) cur = Some l' ->
  exists w', select_level options config cur w
             = (Ok (scan_up (levels config) (temp_state (bufs w)) cur), w')
    /\ fan_cmds w' = fan_cmds w ++ [set_speed l'] /\ bufs w' = bufs w.
Proof.
  intros Hl Hle Hl'. unfold select_level, bind at 1, gets. unfold bind at 1, deref.
  rewrite Hl. cbn. rewrite Hle.
  destruct (log_and_set_speed_ok config _ w l' Hl') as (w' & E & Hf & Hb).
  exists w'. unfold bind. rewrite E. auto.
Qed.

Lemma select_level_forward_undefined (config : Config) (cur : nat) (w : World) (l : Level) :
  levels config !! cur = Some l ->
  le_state l (temp_state (bufs w)) = true ->
  levels config !! scan_up (levels config) (temp_state (bufs w)) cur = None ->
  select_level options config cur w = (Undefined, w).
Proof.
  intros Hl Hle Hl'. unfold select_level, bind at 1, gets. unfold bind at 1, deref.
  rewrite Hl. cbn. rewrite Hle. unfold bind.
  now rewrite (log_and_set_speed_undefined config _ w Hl').
Qed.

Lemma select_level_backward (config : Config) (cur : nat) (w : World) (l : Level) :
  levels config !! cur = Some l ->
  le_state l (temp_state (bufs w)) = false ->
  gt_state l (temp_state (bufs w)) = true ->
  exists k l' w',
    scan_down (levels config) (temp_state (bufs w)) cur = Some k
    /\ levels config !! k = Some l'
    /\ select_level options config cur w = (Ok k, w')
    /\ fan_cmds w' = fan_cmds w ++ [set_speed l']
    /\ tmp_sleeptime (bufs w') = sleeptime options
    /\ temp_state (bufs w') = temp_state (bufs w).
Proof.
  intros Hl Hle Hgt.
  assert (Hcur : (cur < length (levels config))%nat) by (eapply lookup_lt_Some; exact Hl).
  destruct (scan_down_spec (levels config) (temp_state (bufs w)) cur Hcur)
    as (k & Hk & Hkle & _).
  destruct (lookup_lt_is_Some_2 (levels config) k) as [l' Hl']; [lia|].
  destruct (log_and_set_speed_ok config k w l' Hl') as (w1 & E & Hf & Hb).
  exists k, l'. eexists. split; [exact Hk|]. split; [exact Hl'|].
  unfold select_level, bind at 1, gets. unfold bind at 1, deref.
  rewrite Hl. cbn. rewrite Hle, Hgt, Hk. unfold bind at 1. rewrite E. cbn.
  split; [reflexivity|]. cbn. rewrite Hf, Hb. auto.
Qed.


Lemma cycle_after_read (config : Config) (env : CycleEnv Hw) (cur : nat) (w w1 : World) :
  read_phase config (hw env) w = (Ok tt, w1) ->
  cycle fail_raises options config env cur w
  = (check_sensors fail_raises ;;
     cur_lvl' <- select_level options config cur ;;
     sleep_for (signals env) ;; decay_bias options ;; ret cur_lvl') w1.
Proof. intros Hr. unfold cycle. now rewrite (bind_ok _ _ _ _ _ Hr). Qed.

(** C3: in a cycle in which the write cursor has not reached the end of
    [temps] once every sensor was invoked, the loop raises the SystemError
    "sensor lost" and issues no fan command, neither [set_speed] nor
    [ping_watchdog_and_depulse]. That [fail(TF_ERR)] raises is the assumption
    on the helper declared outside this file. *)
Theorem sensor_lost_is_fatal (config : Config) (env : CycleEnv Hw) (cur : nat)
    (w w1 : World) :
  fail_raises TF_ERR = true ->
  read_phase config (hw env) w = (Ok tt, w1) ->
  temp_it (temp_state (bufs w1)) <> end_it (temp_state (bufs w1)) ->
  cycle fail_raises options config env cur w = (Throw (SystemError MSG_SENSOR_LOST), w1)
  /\ fan_cmds w1 = fan_cmds w.
Proof.
  intros Hraise Hread Hlost. split.
  - rewrite (cycle_after_read _ _ _ _ _ Hread).
    apply bind_throw. now apply check_sensors_lost.
  - now apply read_phase_frame in Hread.
Qed.

(** C4: in a cycle in which neither the [<=] test nor the [>] test of the
    selected Level holds for the new temperature state, the only fan command
    issued is [ping_watchdog_and_depulse] for that Level, exactly once when
    the sensors filled every slot; [set_speed] is not called and the selection
    stays. *)
Theorem no_crossing_only_pings (config : Config) (env : CycleEnv Hw) (cur : nat)
    (w w1 w' : World) (l : Level) (o : Outcome nat) :
  read_phase config (hw env) w = (Ok tt, w1) ->
  levels config !! cur = Some l ->
  le_state l (temp_state (bufs w1)) = false ->
  gt_state l (temp_state (bufs w1)) = false ->
  cycle fail_raises options config env cur w = (o, w') ->
  exists cmds, fan_cmds w' = fan_cmds w ++ cmds
    /\ Forall (fun c => c = ping_watchdog_and_depulse l) cmds
    /\ (temp_it (temp_state (bufs w1)) = end_it (temp_state (bufs w1)) ->
        cmds = [ping_watchdog_and_depulse l])
    /\ (forall c, o = Ok c -> c = cur).
Proof.
  intros Hread Hl Hle Hgt. rewrite (cycle_after_read _ _ _ _ _ Hread).
  destruct (read_phase_frame _ _ _ _ _ Hread) as (Hf1 & _).
  assert (Hsel := select_level_ping config cur w1 l Hl Hle Hgt).
  assert (Hgo : forall o w',
    (cur_lvl' <- select_level options config cur ;;
     sleep_for (signals env) ;; decay_bias options ;; ret cur_lvl') w1 = (o, w') ->
    fan_cmds w' = fan_cmds w ++ [ping_watchdog_and_depulse l]
    /\ (forall c, o = Ok c -> c = cur)).
  { intros o0 w0. rewrite (bind_ok _ _ _ _ _ Hsel). intros Ht.
    destruct (cycle_tail _ _ _ _ _ Ht) as (Hf & _ & Hc & _).
    split; [|exact Hc]. rewrite Hf. cbn. now rewrite Hf1. }
  unfold bind at 1. unfold check_sensors at 1, bind at 1, gets.
  destruct (negb (iter_eqb _ _)) eqn:Eit.
  - unfold fail. destruct (fail_raises TF_ERR).
    + intros [= <- <-]. exists []. rewrite app_nil_r. split; [exact Hf1|].
      split; [constructor|]. split; [|discriminate].
      intros E. apply iter_eqb_eq in E. rewrite E in Eit. discriminate.
    + cbn. intros Ht.
      pose (w1' := add_log (Logged TF_ERR (exn_msg (SystemError MSG_SENSOR_LOST))) w1).
      assert (Hsel' := select_level_ping config cur w1' l Hl Hle Hgt).
      fold w1' in Ht. rewrite (bind_ok _ _ _ _ _ Hsel') in Ht.
      destruct (cycle_tail _ _ _ _ _ Ht) as (Hf & _ & Hc & _).
      exists [ping_watchdog_and_depulse l]. rewrite Hf. cbn. rewrite Hf1.
      split; [reflexivity|]. split; [repeat constructor|]. split; [reflexivity|exact Hc].
  - cbn. intros Ht. destruct (Hgo _ _ Ht) as (Hf & Hc).
    exists [ping_watchdog_and_depulse l].
    split; [exact Hf|]. split; [repeat constructor|]. split; [reflexivity|exact Hc].
Qed.


Lemma cycle_after_check (config : Config) (env : CycleEnv Hw) (cur : nat) (w w1 : World) :
  read_phase config (hw env) w = (Ok tt, w1) ->
  temp_it (temp_state (bufs w1)) = end_it (temp_state (bufs w1)) ->
  cycle fail_raises options config env cur w
  = (cur_lvl' <- select_level options config cur ;;
     sleep_for (signals env) ;; decay_bias options ;; ret cur_lvl') w1.
Proof.
  intros Hr He. rewrite (cycle_after_read _ _ _ _ _ Hr).
  now rewrite (bind_ok _ _ _ _ _ (check_sensors_complete w1 He)).
Qed.


(** C5, as amended: a cycle resets [tmp_sleeptime] to the base sleep
    interval exactly when it takes the backward branch, that is when the [<=]
    test of the selected Level fails and its [>] test holds, whether or not
    the selection then moves down; forward and no-change cycles leave
    [tmp_sleeptime] as the sensors left it. Every cycle that lowers the
    selection is such a cycle. *)
Theorem hold_timer_reset_iff_backward_branch (config : Config) (env : CycleEnv Hw)
    (cur : nat) (w w1 w' : World) (l : Level) (o : Outcome nat) :
  let ts := temp_state (bufs w1) in
  read_phase config (hw env) w = (Ok tt, w1) ->
  temp_it ts = end_it ts ->
  levels config !! cur = Some l ->
  cycle fail_raises options config env cur w = (o, w') ->
  tmp_sleeptime (bufs w')
  = (if negb (le_state l ts) && gt_state l ts then sleeptime options
     else tmp_sleeptime (bufs w1))
  /\ (forall c, o = Ok c -> (c < cur)%nat ->
       negb (le_state l ts) && gt_state l ts = true).
Proof.
  intros ts Hread Hend Hl Hcyc.
  rewrite (cycle_after_check _ _ _ _ _ Hread Hend) in Hcyc.
  destruct (le_state l ts) eqn:Hle; [|destruct (gt_state l ts) eqn:Hgt]; cbn.
  - destruct (levels config !! scan_up (levels config) ts cur) as [l'|] eqn:Hl'.
    + destruct (select_level_forward config cur w1 l l' Hl Hle Hl') as (w2 & Hsel & _ & Hb).
      rewrite (bind_ok _ _ _ _ _ Hsel) in Hcyc.
      destruct (cycle_tail _ _ _ _ _ Hcyc) as (_ & Ht & Hc & _).
      split; [now rewrite Ht, Hb|]. intros c Ho Hlt. apply Hc in Ho. subst c.
      assert (Hcur : (cur <= length (levels config))%nat).
      { apply Nat.lt_le_incl. eapply lookup_lt_Some. exact Hl. }
      destruct (scan_up_spec (levels config) ts cur Hcur) as (Hbd & _). fold ts in Hlt. lia.
    + rewrite (bind_undefined _ _ _ _
                 (select_level_forward_undefined config cur w1 l Hl Hle Hl')) in Hcyc.
      injection Hcyc as <- <-. split; [reflexivity | discriminate].
  - destruct (select_level_backward config cur w1 l Hl Hle Hgt)
      as (k & l' & w2 & _ & _ & Hsel & _ & Ht2 & _).
    rewrite (bind_ok _ _ _ _ _ Hsel) in Hcyc.
    destruct (cycle_tail _ _ _ _ _ Hcyc) as (_ & Ht & _).
    split; [now rewrite Ht, Ht2 | reflexivity].
  - rewrite (bind_ok _ _ _ _ _ (select_level_ping config cur w1 l Hl Hle Hgt)) in Hcyc.
    destruct (cycle_tail _ _ _ _ _ Hcyc) as (_ & Ht & Hc & _).
    split; [now rewrite Ht|]. intros c Ho Hlt. apply Hc in Ho. lia.
Qed.

(** A level-decreasing transition happens in the backward branch only when
    the selection is not the lowest Level already. *)
Lemma backward_branch_moves (config : Config) (cur : nat) (w : World) (l : Level) :
  levels config !! cur = Some l ->
  gt_state l (temp_state (bufs w)) = true ->
  forall k, scan_down (levels config) (temp_state (bufs w)) cur = Some k ->
  ((k < cur)%nat <-> (0 < cur)%nat).
Proof.
  intros Hl Hgt k. destruct cur as [|prev]; simpl.
  - intros [= <-]. lia.
  - rewrite Hl, Hgt. intros Hk.
    assert (Hp : (prev < length (levels config))%nat).
    { apply lookup_lt_Some in Hl. lia. }
    destruct (scan_down_spec (levels config) (temp_state (bufs w)) prev Hp)
      as (k' & Hk' & Hle & _).
    rewrite Hk in Hk'. injection Hk' as ->. lia.
Qed.


(** When every Level passes the test the forward scan ends past the end,
    where there is no Level to dereference. *)
Lemma scan_up_past_the_end (lvls : list Level) (ts : TemperatureState) :
  Forall (fun l => le_state l ts = true) lvls ->
  scan_up lvls ts 0 = length lvls /\ lvls !! scan_up lvls ts 0 = None.
Proof.
  intros Hall.
  assert (E : forall i, scan_up_from lvls ts i = (i + length lvls)%nat).
  { induction Hall as [|l lvls Hl _ IH]; intros i; simpl; [lia|].
    rewrite Hl, IH. lia. }
  unfold scan_up. rewrite drop_0, E. split; [reflexivity|].
  apply lookup_ge_None. simpl. lia.
Qed.

End LoopProperties.

Section MainProperties.
Context {Level SensorDriver Hw : Type}.
Context `{LevelOps Level} `{SensorOps SensorDriver Hw}.
Variable fail_raises : LogLevel -> bool.
Variable options : Options.

#[local] Abbreviation World := (World Level).
#[local] Abbreviation Config := (Config Level SensorDriver).

Lemma reload_failure (config : Config) (e : Exn) (w : World) :
  exists w', reload config (config_throws e) w = (Ok config, w')
    /\ interrupted w' = None
    /\ (exists extra, logged w' = logged w ++ Logged TF_INF MSG_RELOAD_CONF
                          :: extra ++ [Logged TF_ERR MSG_CONF_RELOAD_ERR])
    /\ bufs w' = bufs w /\ fan_cmds w' = fan_cmds w.
Proof.
  unfold reload. destruct (is_ExpectedError e); cbn; eexists; (split; [reflexivity|]); cbn.
  - split; [reflexivity|]. split; [|auto]. exists []. now rewrite <- app_assoc.
  - split; [reflexivity|]. split; [|auto].
    eexists [_]. now rewrite <- !app_assoc.
Qed.

Lemma reload_clears_interrupted (config : Config) (rc : ReadConfig Config)
    (w w' : World) o :
  reload config rc w = (o, w') -> interrupted w' = None.
Proof.
  unfold reload, bind, log, modify, ret. destruct rc as [c|e]; [|destruct (is_ExpectedError e)];
    intros [= _ <-]; reflexivity.
Qed.

(** What an iteration of the loop of [main] in which no reload is requested
    makes of the outcome of its call of [run]. *)
Lemma main_loop_runs (ep : Episode Hw) (eps : list (Episode Hw))
    (rcs : list (ReadConfig Config)) (config : Config) (w : World) :
  forall o w2,
    run fail_raises options config (first_hw ep) (cycles ep) w = (o, w2) ->
    match o with
    | Ok Returned =>
        forall sg, interrupted w2 = Some sg -> sg <> SIGHUP ->
          main_loop fail_raises options (ep :: eps) rcs config w = (Ok LoopLeft, w2)
    | Ok StillRunning =>
        main_loop fail_raises options (ep :: eps) rcs config w = (Ok InputExhausted, w2)
    | Throw x => main_loop fail_raises options (ep :: eps) rcs config w = (Throw x, w2)
    | Undefined => main_loop fail_raises options (ep :: eps) rcs config w = (Undefined, w2)
    end.
Proof.
  intros o w2 Hrun. destruct o as [[]|x|]; cbn [main_loop].
  - intros sg Hi Hsg. rewrite (bind_ok _ _ _ _ _ Hrun). unfold bind, gets. rewrite Hi.
    destruct sg; try congruence; destruct rcs; reflexivity.
  - now rewrite (bind_ok _ _ _ _ _ Hrun).
  - now rewrite (bind_throw _ _ _ _ _ Hrun).
  - now rewrite (bind_undefined _ _ _ _ Hrun).
Qed.

(** After a reload the loop of [main] starts its next iteration with the
    Config the reload left. *)
Lemma main_loop_after_reload (config config' : Config) (rc : ReadConfig Config)
    (ep : Episode Hw) (eps : list (Episode Hw)) (rcs : list (ReadConfig Config))
    (w0 w w' : World) :
  run fail_raises options config (first_hw ep) (cycles ep) w0 = (Ok Returned, w) ->
  interrupted w = Some SIGHUP ->
  reload config rc w = (Ok config', w') ->
  main_loop fail_raises options (ep :: eps) (rc :: rcs) config w0
  = main_loop fail_raises options eps rcs config' w'.
Proof.
  intros Hrun Hsig Hre. cbn [main_loop]. rewrite (bind_ok _ _ _ _ _ Hrun).
  unfold bind at 1, gets at 1. rewrite Hsig.
  rewrite (bind_ok _ _ _ _ _ Hre). unfold bind at 1, gets at 1.
  now rewrite (reload_clears_interrupted _ _ _ _ _ Hre).
Qed.

(** C7: when [read_config] throws during a reload, the Config in use stays
    the active one, the reload-failure message is logged, [interrupted] is
    cleared, and the loop of [main] resumes: its next iteration calls [run]
    with the old Config in the world the reload left, and what that call does
    is what the loop does next. It ends the loop when it returns on a signal
    other than SIGHUP, and its exception or undefined behaviour is the
    loop's. *)
Theorem reload_failure_keeps_config (config : Config) (e : Exn)
    (ep : Episode Hw) (eps : list (Episode Hw)) (rcs : list (ReadConfig Config))
    (w0 w : World) :
  run fail_raises options config (first_hw ep) (cycles ep) w0 = (Ok Returned, w) ->
  interrupted w = Some SIGHUP ->
  exists w', reload config (config_throws e) w = (Ok config, w')
    /\ interrupted w' = None
    /\ (exists extra, logged w' = logged w ++ Logged TF_INF MSG_RELOAD_CONF
                          :: extra ++ [Logged TF_ERR MSG_CONF_RELOAD_ERR])
    /\ bufs w' = bufs w /\ fan_cmds w' = fan_cmds w
    /\ main_loop fail_raises options (ep :: eps) (config_throws e :: rcs) config w0
       = main_loop fail_raises options eps rcs config w'
    /\ forall ep2 eps2, eps = ep2 :: eps2 ->
         forall o w2,
           run fail_raises options config (first_hw ep2) (cycles ep2) w' = (o, w2) ->
           match o with
           | Ok Returned =>
               forall sg, interrupted w2 = Some sg -> sg <> SIGHUP ->
                 main_loop fail_raises options (ep :: eps) (config_throws e :: rcs) config w0
                 = (Ok LoopLeft, w2)
           | Ok StillRunning =>
               main_loop fail_raises options (ep :: eps) (config_throws e :: rcs) config w0
               = (Ok InputExhausted, w2)
           | Throw x =>
               main_loop fail_raises options (ep :: eps) (config_throws e :: rcs) config w0
               = (Throw x, w2)
           | Undefined =>
               main_loop fail_raises options (ep :: eps) (config_throws e :: rcs) config w0
               = (Undefined, w2)
           end.
Proof.
  intros Hrun Hsig.
  destruct (reload_failure config e w) as (w' & Hre & Hi & Hlog & Hb & Hf).
  assert (Hnext := main_loop_after_reload config config (config_throws e) ep
                     eps rcs w0 w w' Hrun Hsig Hre).
  exists w'. repeat (split; [assumption|]).
  intros ep2 eps2 -> o w2 Hrun2. rewrite Hnext.
  exact (main_loop_runs ep2 eps2 rcs config w' o w2 Hrun2).
Qed.

End MainProperties.

(** ** The scenario *)

(** The scenario with a sensor that delivers no reading. *)
Lemma sensor_lost_is_fatal_witness :
  let env := {| hw := [[]]; signals := [] |} in
  let w1 := snd (read_phase scenario_config (hw env) world1) in
  raise_errors TF_ERR = true
  /\ temp_it (temp_state (bufs w1)) <> end_it (temp_state (bufs w1))
  /\ cycle raise_errors scenario_options scenario_config env 1 world1
     = (Throw (SystemError MSG_SENSOR_LOST), w1)
  /\ fan_cmds w1 = fan_cmds world1.
Proof.
  intros env w1.
  assert (Hraise : raise_errors TF_ERR = true) by reflexivity.
  assert (Hread : read_phase scenario_config (hw env) world1 = (Ok tt, w1)) by reflexivity.
  assert (Hlost : temp_it (temp_state (bufs w1)) <> end_it (temp_state (bufs w1)))
    by (vm_compute; discriminate).
  split; [exact Hraise|]. split; [exact Hlost|].
  exact (sensor_lost_is_fatal raise_errors scenario_options scenario_config env 1
           world1 w1 Hraise Hread Hlost).
Defined.

(** The scenario with the middle Level selected and a reading of 47, between
    its two thresholds. *)
Lemma no_crossing_only_pings_witness :
  let env := reading 47 [] in
  let w1 := snd (read_phase scenario_config (hw env) world1) in
  let l := {| engage := 50; disengage := 45; speed := 2 |} in
  let r := cycle raise_errors scenario_options scenario_config env 1 world1 in
  le_state l (temp_state (bufs w1)) = false
  /\ gt_state l (temp_state (bufs w1)) = false
  /\ exists cmds, fan_cmds (snd r) = fan_cmds world1 ++ cmds
       /\ Forall (fun c => c = ping_watchdog_and_depulse l) cmds
       /\ (temp_it (temp_state (bufs w1)) = end_it (temp_state (bufs w1)) ->
           cmds = [ping_watchdog_and_depulse l])
       /\ (forall c, fst r = Ok c -> c = 1%nat).
Proof.
  intros env w1 l r.
  assert (Hread : read_phase scenario_config (hw env) world1 = (Ok tt, w1)) by reflexivity.
  assert (Hl : levels scenario_config !! 1%nat = Some l) by reflexivity.
  assert (Hle : le_state l (temp_state (bufs w1)) = false) by reflexivity.
  assert (Hgt : gt_state l (temp_state (bufs w1)) = false) by reflexivity.
  assert (Hr : cycle raise_errors scenario_options scenario_config env 1 world1
               = (fst r, snd r)) by apply surjective_pairing.
  split; [exact Hle|]. split; [exact Hgt|].
  exact (no_crossing_only_pings raise_errors scenario_options scenario_config env 1
           world1 w1 (snd r) l (fst r) Hread Hl Hle Hgt Hr).
Defined.



(** The scenario with the highest Level selected, a hold timer of 2 and a
    reading of 40: the selection falls back and the timer is reset to 5. *)
Lemma hold_timer_reset_iff_backward_branch_witness :
  let env := reading 40 [] in
  let w := world_high in
  let w1 := snd (read_phase scenario_config (hw env) w) in
  let r := cycle raise_errors scenario_options scenario_config env 2 w in
  tmp_sleeptime (bufs w1) = 2 /\ fst r = Ok 0%nat /\ tmp_sleeptime (bufs (snd r)) = 5.
Proof.
  intros env w w1 r.
  assert (Hread : read_phase scenario_config (hw env) w = (Ok tt, w1)) by reflexivity.
  assert (Hend : temp_it (temp_state (bufs w1)) = end_it (temp_state (bufs w1)))
    by reflexivity.
  assert (Hl : levels scenario_config !! 2%nat
               = Some {| engage := 70; disengage := 65; speed := 3 |}) by reflexivity.
  assert (Hr : cycle raise_errors scenario_options scenario_config env 2 w
               = (fst r, snd r)) by apply surjective_pairing.
  destruct (hold_timer_reset_iff_backward_branch raise_errors scenario_options
              scenario_config env 2 w w1 (snd r) _ (fst r) Hread Hend Hl Hr)
    as (Htimer & _).
  split; [reflexivity|]. split; [reflexivity|]. exact Htimer.
Defined.

(** C5, counterexample: with the lowest Level selected and a reading of -5,
    below its disengagement point, the cycle takes the backward branch; the
    selection cannot move down and stays at the lowest Level, and the hold
    timer, which a sensor driver had set to 2, is reset to the base interval
    5 all the same. *)
Lemma reset_without_level_decrease :
  let r := cycle raise_errors scenario_options scenario_config (reading (-5) []) 0
                 world_held in
  tmp_sleeptime (bufs (snd (read_phase scenario_config [[-5]] world_held))) = 2
  /\ fst r = Ok 0%nat
  /\ tmp_sleeptime (bufs (snd r)) = sleeptime scenario_options
  /\ sleeptime scenario_options = 5.
Proof. repeat split. Qed.



(** C10, on the code: with the Levels of the scenario and a reading of 72,
    which passes the test of every Level, the scan stops at the past-the-end
    position, where no Level is; the loop dereferences it for the log line
    and [set_speed], at the initial selection and after a forward scan
    alike. *)
Theorem scan_reaches_past_the_end :
  (let r := run_init scenario_options scenario_config [[72]] world0 in
   let k := scan_up (levels scenario_config) (temp_state (bufs (snd r))) 0 in
   k = length (levels scenario_config)
   /\ levels scenario_config !! k = None
   /\ fst r = Undefined)
  /\ (let r := cycle raise_errors scenario_options scenario_config (reading 72 []) 2
                     world1 in
      let k := scan_up (levels scenario_config) (temp_state (bufs (snd r))) 2 in
      k = length (levels scenario_config)
      /\ levels scenario_config !! k = None
      /\ fst r = Undefined).
Proof. repeat split. Qed.

(** The scenario interrupted by SIGHUP while [read_config] rejects the
    replacement, followed by a call of [run] that SIGTERM ends: the fan is
    initialised a second time and driven with the Levels of the old
    Config. *)
Lemma reload_failure_keeps_config_witness :
  let ep := scenario_episode in
  let e := ConfigError (MsgText "syntax error") in
  let lvl := {| engage := 50; disengage := 45; speed := 2 |} in
  run raise_errors scenario_options scenario_config (first_hw ep) (cycles ep) world0
  = (Ok Returned, world_hup)
  /\ interrupted world_hup = Some SIGHUP
  /\ reload scenario_config (config_throws e) world_hup
     = (Ok scenario_config, world_reload_failed)
  /\ logged world_reload_failed
     = logged world_hup ++ [Logged TF_INF MSG_RELOAD_CONF;
                            Logged TF_ERR MSG_CONF_RELOAD_ERR]
  /\ run raise_errors scenario_options scenario_config (first_hw closing_episode)
         (cycles closing_episode) world_reload_failed
     = (Ok Returned, world_resumed)
  /\ main_loop raise_errors scenario_options [ep; closing_episode] [config_throws e]
               scenario_config world0
     = (Ok LoopLeft, world_resumed)
  /\ fan_cmds world_resumed
     = [fan_init; set_speed lvl; ping_watchdog_and_depulse lvl;
        fan_init; set_speed lvl; ping_watchdog_and_depulse lvl].
Proof.
  intros ep e lvl.
  assert (Hrun : run raise_errors scenario_options scenario_config (first_hw ep)
                     (cycles ep) world0 = (Ok Returned, world_hup))
    by (vm_compute; reflexivity).
  assert (Hsig : interrupted world_hup = Some SIGHUP) by reflexivity.
  assert (Hre0 : reload scenario_config (config_throws e) world_hup
                 = (Ok scenario_config, world_reload_failed))
    by (vm_compute; reflexivity).
  assert (Hrun2 : run raise_errors scenario_options scenario_config
                      (first_hw closing_episode) (cycles closing_episode)
                      world_reload_failed = (Ok Returned, world_resumed))
    by (vm_compute; reflexivity).
  assert (Hterm : interrupted world_resumed = Some SIGTERM) by reflexivity.
  assert (Hne : SIGTERM <> SIGHUP) by discriminate.
  destruct (reload_failure_keeps_config raise_errors scenario_options scenario_config e
              ep [closing_episode] [] world0 world_hup Hrun Hsig)
    as (w' & Hre & _ & _ & _ & _ & _ & Hnext).
  rewrite Hre0 in Hre. injection Hre as <-.
  split; [exact Hrun|]. split; [exact Hsig|]. split; [exact Hre0|].
  split; [reflexivity|]. split; [exact Hrun2|].
  split; [exact (Hnext closing_episode [] eq_refl _ _ Hrun2 SIGTERM Hterm Hne)|].
  reflexivity.
Defined.

(** * Further properties *)

(** ** The command line *)

Section OptionExtras.
Variable fail_raises : LogLevel -> bool.

Ltac run_option :=
  unfold set_option, set_opts, fail, log, bind, modify, throw, ret;
  repeat case_match; intros; simplify_eq; cbn in *.

(** Which options end the [getopt] loop, and with which code. *)
Lemma set_option_returns (o : CmdOpt) (s s' : OptState) (r : option Z) :
  set_option fail_raises o s = (Ok r, s') ->
  match r with
  | Some rc => (o = opt_h /\ rc = 1) \/ (o = opt_unknown /\ rc = 3)
  | None => o <> opt_h /\ o <> opt_unknown
  end.
Proof. run_option; auto. Qed.

(** X1: [set_options] returns 0, 1 or 3: when it returns 1 the command line
    holds a [-h], when it returns 3 an option [getopt] does not know, and it
    returns 0 only when the command line holds neither. *)
Theorem set_options_return_code (argv : list CmdOpt) (s s' : OptState) (rc : Z) :
  set_options fail_raises argv s = (Ok rc, s') ->
  (rc = 0 /\ (opt_h ∉ argv) /\ (opt_unknown ∉ argv))
  \/ (rc = 1 /\ opt_h ∈ argv)
  \/ (rc = 3 /\ opt_unknown ∈ argv).
Proof.
  revert s. induction argv as [|o argv IH]; intros s.
  - cbn. unfold bind, gets, log, modify, ret. cbn.
    destruct (Qlt_le_dec 0 (depulse (opts s))); cbn; intros [= <- _];
      left; repeat split; apply not_elem_of_nil.
  - cbn [set_options]. unfold bind at 1.
    destruct (set_option fail_raises o s) as [[[r|]|e|] s1] eqn:Ho; try discriminate.
    + intros [= <- <-]. apply set_option_returns in Ho.
      destruct Ho as [[-> ->]|[-> ->]]; [right; left|right; right];
        (split; [reflexivity | left]).
    + apply set_option_returns in Ho. destruct Ho as [Nh Nu].
      intros Hrest. destruct (IH _ Hrest) as [(-> & H1 & H2)|[(-> & H1)|(-> & H1)]].
      * left. split; [reflexivity|]. split; intros Hin; apply elem_of_cons in Hin;
          destruct Hin as [E|Hin]; congruence.
      * right. left. split; [reflexivity | now right].
      * right. right. split; [reflexivity | now right].
Qed.

Lemma bind_ext {S A B} (c : M S A) (k1 k2 : A -> M S B) (s : S) :
  (forall a s', k1 a s' = k2 a s') -> bind c k1 s = bind c k2 s.
Proof. intros Hk. unfold bind. destruct (c s) as [[a|e|] s']; auto. Qed.

Lemma set_options_stops_after (o : CmdOpt) (rc : Z) (f : OptState -> OptState)
    (pre rest : list CmdOpt) (s s1 : OptState) :
  (forall s0, set_option fail_raises o s0 = (Ok (Some rc), f s0)) ->
  getopt_loop fail_raises pre s = (Ok None, s1) ->
  set_options fail_raises (pre ++ o :: rest) s = (Ok rc, f s1).
Proof.
  intros Ho. revert s.
  induction pre as [|p pre IH]; intros s; cbn [app set_options getopt_loop].
  - intros [= <-]. now rewrite (bind_ok _ _ _ _ _ (Ho s)).
  - unfold bind at 1 2. destruct (set_option fail_raises p s) as [[[r|]|e|] s2];
      try discriminate. apply IH.
Qed.

Lemma set_options_after_loop (pre : list CmdOpt) (s s1 : OptState) :
  getopt_loop fail_raises pre s = (Ok None, s1) ->
  set_options fail_raises pre s = set_options fail_raises [] s1.
Proof.
  revert s. induction pre as [|p pre IH]; intros s; cbn [set_options getopt_loop].
  - now intros [= <-].
  - unfold bind at 1 2. destruct (set_option fail_raises p s) as [[[r|]|e|] s2];
      try discriminate. apply IH.
Qed.

(** X2: [set_options] does not look at what follows a [-h] or an option
    [getopt] does not know. When the options before it are gone through
    without an exception, leaving the state [s1], a command line that ends
    there gets the depulse notice for [s1] and the return value 0; with [-h]
    next, [set_options] returns 1 in [s1] plus the usage text on [cerr]; with
    an unknown option next, it returns 3 in [s1] plus the complaint and the
    usage text. In both cases the options before are applied, those after are
    not, and the depulse notice is not logged. *)
Theorem set_options_ignores_the_rest (pre rest : list CmdOpt) (s s1 : OptState) :
  getopt_loop fail_raises pre s = (Ok None, s1) ->
  set_options fail_raises pre s = set_options fail_raises [] s1
  /\ set_options fail_raises (pre ++ opt_h :: rest) s
     = (Ok 1, add_log (Cerr MSG_USAGE) s1)
  /\ set_options fail_raises (pre ++ opt_unknown :: rest) s
     = (Ok 3, add_log (Cerr MSG_USAGE)
                (add_log (Cerr (MsgText "Invalid commandline option.")) s1)).
Proof.
  intros Hpre. split; [now apply set_options_after_loop|]. split.
  - apply (set_options_stops_after opt_h 1 (add_log (Cerr MSG_USAGE)));
      [reflexivity | exact Hpre].
  - apply (set_options_stops_after opt_unknown 3
             (fun s0 => add_log (Cerr MSG_USAGE)
                          (add_log (Cerr (MsgText "Invalid commandline option.")) s0)));
      [reflexivity | exact Hpre].
Qed.

Lemma to_int32_range (v : Z) : - 2 ^ 31 <= to_int32 v < 2 ^ 31.
Proof. unfold to_int32. pose proof (Z.mod_pos_bound (v + 2 ^ 31) (2 ^ 32)). lia. Qed.

(** X3: when [fail(TF_ERR)] raises, a [-s] value that [set_options] accepts
    was parsed to the end of the argument and is stored as it is, in seconds,
    and is not negative; when [fail(TF_WRN)] raises too it lies between 1
    and 15. *)
Theorem set_option_s_accepted (v : Z) (invalid len : nat) (s s' : OptState) :
  fail_raises TF_ERR = true ->
  set_option fail_raises (opt_s (Some (parsed v invalid len))) s = (Ok None, s') ->
  sleeptime (opts s') = to_int32 v
  /\ 0 <= sleeptime (opts s')
  /\ (len <= invalid)%nat
  /\ (fail_raises TF_WRN = true -> 1 <= sleeptime (opts s') <= 15).
Proof.
  intros Herr. pose proof (to_int32_range v) as Hr.
  unfold set_option, set_opts, fail, log, bind, modify, throw, ret. rewrite Herr.
  destruct (invalid <? len)%nat eqn:Einv; [discriminate|].
  apply Nat.ltb_ge in Einv.
  destruct (15 <? to_int32 v) eqn:E15; [|destruct (to_int32 v <? 0) eqn:E0;
    [discriminate|destruct (to_int32 v <? 1) eqn:E1]];
  destruct (fail_raises TF_WRN); try discriminate; intros [= <-]; cbn;
    unfold to_uint32; rewrite Z.mod_small by lia;
    repeat split; try done; try lia.
Qed.

(** X5: the range check of [-b] only complains: when [fail(TF_WRN)] does not
    raise, every number is accepted and stored divided by 10, whatever its
    size. *)
Theorem set_option_b_unchecked (b : Q) (invalid len : nat) (s : OptState) :
  fail_raises TF_WRN = false ->
  let r := set_option fail_raises (opt_b (Some (parsed b invalid len))) s in
  fst r = Ok None /\ bias_level (opts (snd r)) = (b / 10)%Q.
Proof.
  intros Hw. unfold set_option, set_opts, fail, log, bind, modify, throw, ret.
  rewrite Hw. repeat case_match; simplify_eq; cbn; auto.
Qed.

(** X6: [-p] with a value that [std::stof] could read always runs into the
    complaint of the option, because the test rejects every argument of
    which at least one character was consumed: when [fail] raises at both
    levels the option throws, after [depulse] was overwritten with the
    value. *)
Theorem set_option_p_with_value_complains (d : Q) (invalid len : nat) (s : OptState) :
  invalid <> 0%nat ->
  fail_raises TF_ERR = true ->
  fail_raises TF_WRN = true ->
  let r := set_option fail_raises (opt_p (Some (parsed d invalid len))) s in
  fst r = Throw (InvocationError MSG_OPT_P)
  /\ opts (snd r) = with_depulse d (opts s).
Proof.
  intros Hinv He Hw. unfold set_option, set_opts, fail, log, bind, modify, throw, ret.
  destruct invalid as [|n]; [done|]. cbn.
  destruct (Qlt_le_dec d 0); rewrite ?He, ?Hw; auto.
Qed.

(** X7: when [set_options] returns 0 with a positive depulse in the options,
    its last log line is the depulse notice, and the notice shows the depulse
    and the sleep time as the whole command line left them, whatever the
    order of [-p] and [-s]. *)
Theorem set_options_depulse_notice (argv : list CmdOpt) (s s' : OptState) :
  set_options fail_raises argv s = (Ok 0, s') ->
  (0 < depulse (opts s'))%Q ->
  last (opt_log s')
  = Some (Logged TF_INF (MSG_DEPULSE (depulse (opts s')) (sleeptime (opts s')))).
Proof.
  revert s. induction argv as [|o argv IH]; intros s.
  - cbn. unfold bind, gets, log, modify, ret. cbn.
    destruct (Qlt_le_dec 0 (depulse (opts s))) as [Hd|Hd]; cbn; intros [= <-]; cbn.
    + intros _. apply last_snoc.
    + intros Hpos. exfalso. revert Hpos. now apply Qle_not_lt.
  - cbn [set_options]. unfold bind at 1.
    destruct (set_option fail_raises o s) as [[[r|]|e|] s1] eqn:Ho; try discriminate.
    + intros [= -> <-]. apply set_option_returns in Ho.
      destruct Ho as [[_ ?]|[_ ?]]; discriminate.
    + apply IH.
Qed.

End OptionExtras.

(** ** Where the decay does not return *)

Lemma bias_decay_large_neg (bl b : Q) :
  (b <= - (1 # 2))%Q -> bias_decay bl b = (b + b / 2 * bl)%Q.
Proof.
  intros H1. unfold bias_decay.
  destruct (Qeq_dec b 0) as [E|_]; [rewrite E in H1; lra|].
  destruct (Qlt_le_dec 0 b); [lra|].
  destruct (Qlt_le_dec (- (1 # 2)) b); [lra | reflexivity].
Qed.

Lemma negative_bias_grows (n : nat) (bl b : Q) :
  (0 < bl)%Q -> (b <= - (1 # 2))%Q -> (decay_steps n bl b <= b)%Q.
Proof.
  intros Hl. revert b. induction n as [|n IH]; intros b Hb; simpl; [lra|].
  rewrite bias_decay_large_neg by exact Hb.
  assert (Hp : (b * bl <= 0)%Q).
  { assert (Hq : (0 <= (- b) * bl)%Q) by (apply Qmult_le_0_compat; lra).
    assert (E : (- b * bl == - (b * bl))%Q) by ring. rewrite E in Hq. lra. }
  assert (E : (b + b / 2 * bl == b + (b * bl) * (1 # 2))%Q) by field.
  assert (Hstep : (b + b / 2 * bl <= b)%Q) by (rewrite E; lra).
  eapply Qle_trans; [apply IH; lra | exact Hstep].
Qed.

(** X8: for a positive [bias_level], a bias of -0.5 or below does not decay:
    every step adds the negative amount bias/2 * bias_level, so after any
    number of steps the bias is at most what it was and never returns
    to 0. *)
Theorem negative_bias_never_returns (n : nat) (bias_level b : Q) :
  (0 < bias_level)%Q -> (b <= - (1 # 2))%Q ->
  (decay_steps n bias_level b <= b)%Q /\ ~ (decay_steps n bias_level b == 0)%Q.
Proof.
  intros Hl Hb. assert (H := negative_bias_grows n bias_level b Hl Hb).
  split; [exact H|]. intros E. rewrite E in H. lra.
Qed.

(** X9: for a [bias_level] of 4 or more, as the initial 5, a bias of 0.5 or
    more does not decay either: the first step takes it to -0.5 or below,
    and from there it never returns to 0. *)
Theorem large_bias_level_never_returns (n : nat) (bias_level b : Q) :
  (4 <= bias_level)%Q -> (1 # 2 <= b)%Q ->
  (decay_steps (S n) bias_level b <= - (1 # 2))%Q
  /\ ~ (decay_steps (S n) bias_level b == 0)%Q.
Proof.
  intros Hl Hb. simpl. rewrite bias_decay_large by exact Hb.
  assert (Hp : (b * 4 <= b * bias_level)%Q) by (apply Qmult_le_l; lra).
  assert (E : (b - b / 2 * bias_level == b - (b * bias_level) * (1 # 2))%Q) by field.
  assert (Hfirst : (b - b / 2 * bias_level <= - (1 # 2))%Q) by (rewrite E; lra).
  assert (H := negative_bias_grows n bias_level _ ltac:(lra) Hfirst).
  split; [lra|]. intros E0. rewrite E0 in H. lra.
Qed.

(** ** The control loop *)

Section LoopExtras.
Context {Level SensorDriver Hw : Type}.
Context `{LevelOps Level} `{SensorOps SensorDriver Hw}.
Variable fail_raises : LogLevel -> bool.
Variable options : Options.

#[local] Abbreviation World := (World Level).
#[local] Abbreviation Config := (Config Level SensorDriver).

(** The choice of the level leaves the temperature states and [interrupted]
    alone. *)
Lemma select_level_frame (config : Config) (cur : nat) (w w' : World) o :
  select_level options config cur w = (o, w') ->
  temp_state (bufs w') = temp_state (bufs w)
  /\ last_temp_state (bufs w') = last_temp_state (bufs w)
  /\ interrupted w' = interrupted w.
Proof.
  unfold select_level, log_and_set_speed, bind, gets, deref, log, fan, modify, ret,
    undefined.
  repeat case_match; intros; simplify_eq; cbn; auto.
Qed.

(** What the choice of the level can do: at most one command, for a Level of
    the configuration; a result is a position of a Level; it never throws;
    and it is undefined only when [cur_lvl] points to no Level or the forward
    scan ran to the end. *)
Lemma select_level_outcome (config : Config) (cur : nat) (w w' : World) o :
  select_level options config cur w = (o, w') ->
  exists cmds, fan_cmds w' = fan_cmds w ++ cmds
    /\ (length cmds <= 1)%nat
    /\ Forall (commands_level (levels config)) cmds
    /\ (forall c, o = Ok c -> (c < length (levels config))%nat /\ length cmds = 1%nat)
    /\ (forall e, o <> Throw e)
    /\ (o = Undefined ->
        cmds = []
        /\ ((length (levels config) <= cur)%nat
            \/ exists l, levels config !! cur = Some l
                 /\ le_state l (temp_state (bufs w)) = true
                 /\ scan_up (levels config) (temp_state (bufs w)) cur
                    = length (levels config))).
Proof.
  destruct (levels config !! cur) as [l|] eqn:Hl.
  2:{ unfold select_level, bind, gets, deref. rewrite Hl. cbn. intros [= <- <-].
      exists []. rewrite app_nil_r. repeat split; try done; try constructor.
      left. now apply lookup_ge_None. }
  assert (Hcur : (cur < length (levels config))%nat) by (eapply lookup_lt_Some; exact Hl).
  destruct (le_state l (temp_state (bufs w))) eqn:Hle;
    [|destruct (gt_state l (temp_state (bufs w))) eqn:Hgt].
  - destruct (levels config !! scan_up (levels config) (temp_state (bufs w)) cur)
      as [l'|] eqn:Hl'.
    + destruct (select_level_forward options config cur w l l' Hl Hle Hl')
        as (w2 & Hsel & Hf & _).
      rewrite Hsel. intros [= <- <-]. exists [set_speed l'].
      split; [exact Hf|]. split; [simpl; lia|]. split.
      { constructor; [|constructor]. simpl. eapply list_elem_of_lookup_2. exact Hl'. }
      split; [|split; [done|done]].
      intros c [= <-]. split; [|reflexivity]. eapply lookup_lt_Some. exact Hl'.
    + rewrite (select_level_forward_undefined options config cur w l Hl Hle Hl').
      intros [= <- <-]. exists []. rewrite app_nil_r.
      split; [reflexivity|]. split; [simpl; lia|]. split; [constructor|].
      split; [done|]. split; [done|]. intros _. split; [reflexivity|]. right.
      exists l. split; [reflexivity|]. split; [exact Hle|].
      apply lookup_ge_None in Hl'.
      destruct (scan_up_spec (levels config) (temp_state (bufs w)) cur) as (Hb & _); lia.
  - destruct (select_level_backward options config cur w l Hl Hle Hgt)
      as (k & l' & w2 & _ & Hl' & Hsel & Hf & _).
    rewrite Hsel. intros [= <- <-]. exists [set_speed l'].
    split; [exact Hf|]. split; [simpl; lia|]. split.
    { constructor; [|constructor]. simpl. eapply list_elem_of_lookup_2. exact Hl'. }
    split; [|split; [done|done]].
    intros c [= <-]. split; [|reflexivity]. eapply lookup_lt_Some. exact Hl'.
  - rewrite (select_level_ping options config cur w l Hl Hle Hgt).
    intros [= <- <-]. exists [ping_watchdog_and_depulse l].
    split; [reflexivity|]. split; [simpl; lia|]. split.
    { constructor; [|constructor]. simpl. eapply list_elem_of_lookup_2. exact Hl. }
    split; [|split; [done|done]].
    intros c [= <-]. split; [exact Hcur | reflexivity].
Qed.


Lemma check_sensors_outcome (w w' : World) o :
  check_sensors fail_raises w = (o, w') ->
  fan_cmds w' = fan_cmds w /\ bufs w' = bufs w /\ interrupted w' = interrupted w
  /\ (o = Ok tt \/ (o = Throw (SystemError MSG_SENSOR_LOST) /\ w' = w)).
Proof.
  unfold check_sensors, bind, gets, fail, log, modify, throw, ret.
  repeat case_match; intros; simplify_eq; cbn; auto 6.
Qed.

Lemma sleep_for_interrupted (sigs : list Signal) (w w' : World) u :
  sleep_for sigs w = (Ok u, w') ->
  interrupted w' = last_interrupt sigs (interrupted w).
Proof.
  unfold sleep_for, last_interrupt. revert w.
  induction sigs as [|sg sigs IH]; intros w; simpl.
  - now intros [= _ <-].
  - unfold bind. destruct (sig_handler sg w) as [[[]| |] w1] eqn:Es; try discriminate.
    intros Hrest. rewrite (IH _ Hrest). f_equal.
    destruct sg; cbn in Es; unfold log, modify, throw, ret in Es; simplify_eq; reflexivity.
Qed.

Lemma sleep_for_outcome (sigs : list Signal) (w w' : World) o :
  sleep_for sigs w = (o, w') ->
  o = Ok tt \/ o = Throw (Bug "Segmentation fault.").
Proof.
  unfold sleep_for. revert w. induction sigs as [|sg sigs IH]; intros w; simpl.
  - intros [= <- _]. now left.
  - unfold bind. destruct (sig_handler sg w) as [[[]| |] w1] eqn:Es.
    + apply IH.
    + intros [= <- _]. right. destruct sg; cbn in Es; unfold log, modify, throw, ret in Es; simplify_eq. reflexivity.
    + destruct sg; cbn in Es; unfold log, modify, throw, ret in Es; simplify_eq.
Qed.

Lemma read_all_defined (config : Config) (h : Hw) (w w' : World) :
  read_all config h w <> (Undefined, w').
Proof.
  unfold read_all. revert w. induction (sensors config) as [|s l IH]; intros w; simpl;
    [discriminate|].
  unfold bind. destruct (read_sensor h s w) as [[[]| |] w1] eqn:Es;
    [apply IH|discriminate|].
  unfold read_sensor in Es. destruct (read_temps s h (bufs w)); discriminate.
Qed.

(** The anatomy of a cycle: what it returns follows from the outcomes of its
    four phases. *)
Lemma cycle_anatomy (config : Config) (env : CycleEnv Hw) (cur : nat) (w w' : World) o :
  cycle fail_raises options config env cur w = (o, w') ->
  (exists e, read_phase config (hw env) w = (Throw e, w') /\ o = Throw e)
  \/ (exists w1, read_phase config (hw env) w = (Ok tt, w1)
        /\ check_sensors fail_raises w1 = (Throw (SystemError MSG_SENSOR_LOST), w')
        /\ o = Throw (SystemError MSG_SENSOR_LOST))
  \/ (exists w1 w2, read_phase config (hw env) w = (Ok tt, w1)
        /\ check_sensors fail_raises w1 = (Ok tt, w2)
        /\ select_level options config cur w2 = (Undefined, w') /\ o = Undefined)
  \/ (exists w1 w2 w3 c, read_phase config (hw env) w = (Ok tt, w1)
        /\ check_sensors fail_raises w1 = (Ok tt, w2)
        /\ select_level options config cur w2 = (Ok c, w3)
        /\ (sleep_for (signals env) ;; decay_bias options ;; ret c) w3 = (o, w')).
Proof.
  unfold cycle. unfold bind at 1.
  destruct (read_phase config (hw env) w) as [[[]|e|] w1] eqn:Hread.
  - unfold bind at 1.
    destruct (check_sensors fail_raises w1) as [[[]|e|] w2] eqn:Hchk.
    + unfold bind at 1.
      destruct (select_level options config cur w2) as [[c|e|] w3] eqn:Hsel.
      * intros Ht. right. right. right. exists w1, w2, w3, c. auto.
      * destruct (select_level_outcome _ _ _ _ _ Hsel) as (? & _ & _ & _ & _ & N & _).
        now destruct (N e).
      * intros [= <- <-]. right. right. left. exists w1, w2. auto.
    + destruct (check_sensors_outcome _ _ _ Hchk) as (_ & _ & _ & [?|[? ?]]); [done|].
      simplify_eq. intros [= <- <-]. right. left. exists w1. auto.
    + destruct (check_sensors_outcome _ _ _ Hchk) as (_ & _ & _ & [?|[? ?]]); done.
  - intros [= <- <-]. left. exists e. auto.
  - exfalso. revert Hread. unfold read_phase, bind, modify. apply read_all_defined.
Qed.

Lemma cycle_tail_outcome (sigs : list Signal) (c : nat) (w w' : World) o :
  (sleep_for sigs ;; decay_bias options ;; ret c) w = (o, w') ->
  (o = Ok c
   /\ interrupted w' = last_interrupt sigs (interrupted w)
   /\ temp_state (bufs w')
      = set_bias (bias_decay (bias_level options) (bias (temp_state (bufs w))))
                 (temp_state (bufs w))
   /\ last_temp_state (bufs w') = last_temp_state (bufs w))
  \/ o = Throw (Bug "Segmentation fault.").
Proof.
  unfold bind at 1. destruct (sleep_for sigs w) as [[[]|e|] w1] eqn:Es.
  - destruct (sleep_for_frame _ _ _ _ Es) as (_ & Hb).
    rewrite <- (sleep_for_interrupted _ _ _ _ Es).
    cbn. intros [= <- <-]. left. cbn. rewrite Hb. auto.
  - intros [= <- _]. right.
    destruct (sleep_for_outcome _ _ _ _ Es) as [?|E]; [done|]. injection E as ->. reflexivity.
  - destruct (sleep_for_outcome _ _ _ _ Es) as [?|?]; done.
Qed.

(** A cycle issues at most one fan command, exactly one when it completes,
    and only for a Level of the configuration; a cycle that ends in an
    exception has issued none, unless the exception is the Bug of a
    segmentation fault signalled during the sleep; a cycle whose behaviour is
    undefined has issued none. A completed cycle leaves [cur_lvl] on a Level
    of the sequence. *)
Lemma cycle_commands (config : Config) (env : CycleEnv Hw)
    (cur : nat) (w : World) :
  let r := cycle fail_raises options config env cur w in
  exists cmds, fan_cmds (snd r) = fan_cmds w ++ cmds
    /\ (length cmds <= 1)%nat
    /\ Forall (commands_level (levels config)) cmds
    /\ (forall c, fst r = Ok c ->
        length cmds = 1%nat /\ (c < length (levels config))%nat)
    /\ (forall e, fst r = Throw e -> cmds = [] \/ e = Bug "Segmentation fault.")
    /\ (fst r = Undefined -> cmds = []).
Proof.
  intros r. destruct r as [o w'] eqn:Hr. subst r. cbn [fst snd].
  destruct (cycle_anatomy _ _ _ _ _ _ Hr)
    as [(e & Hread & ->)|[(w1 & Hread & Hchk & ->)
       |[(w1 & w2 & Hread & Hchk & Hsel & ->)|(w1 & w2 & w3 & c & Hread & Hchk & Hsel & Ht)]]].
  - destruct (read_phase_frame _ _ _ _ _ Hread) as (Hf & _).
    exists []. rewrite app_nil_r. repeat split; try done; auto; simpl; lia.
  - destruct (read_phase_frame _ _ _ _ _ Hread) as (Hf & _).
    destruct (check_sensors_outcome _ _ _ Hchk) as (Hf2 & _).
    exists []. rewrite app_nil_r, Hf2. repeat split; try done; auto; simpl; lia.
  - destruct (read_phase_frame _ _ _ _ _ Hread) as (Hf & _).
    destruct (check_sensors_outcome _ _ _ Hchk) as (Hf2 & _).
    destruct (select_level_outcome _ _ _ _ _ Hsel) as (cmds & Hf3 & _ & _ & _ & _ & Hu).
    destruct (Hu eq_refl) as (-> & _).
    exists []. rewrite Hf3, Hf2, Hf. repeat split; try done; simpl; lia.
  - destruct (read_phase_frame _ _ _ _ _ Hread) as (Hf & _).
    destruct (check_sensors_outcome _ _ _ Hchk) as (Hf2 & _).
    destruct (select_level_outcome _ _ _ _ _ Hsel)
      as (cmds & Hf3 & Hlen & Hall & Hok & _ & _).
    destruct (Hok c eq_refl) as (Hc & Hone).
    destruct (cycle_tail _ _ _ _ _ _ Ht) as (Hf4 & _ & Hc' & _).
    exists cmds. rewrite Hf4, Hf3, Hf2, Hf.
    split; [reflexivity|]. split; [exact Hlen|]. split; [exact Hall|].
    split; [|split].
    + intros c' Ho. rewrite (Hc' c' Ho). auto.
    + intros e ->. right.
      destruct (cycle_tail_outcome _ _ _ _ _ Ht) as [(? & _)|?]; [done|]. congruence.
    + intros ->. destruct (cycle_tail_outcome _ _ _ _ _ Ht) as [(? & _)|?]; done.
Qed.

(** X11: a cycle that completes leaves in [interrupted] the last of the signals
    SIGHUP, SIGINT and SIGTERM delivered during its sleep, and what was there
    before when none was delivered; nothing else in the cycle writes it. *)
Theorem cycle_records_last_interrupt (config : Config) (env : CycleEnv Hw)
    (cur c : nat) (w w' : World) :
  cycle fail_raises options config env cur w = (Ok c, w') ->
  interrupted w' = last_interrupt (signals env) (interrupted w).
Proof.
  intros Hr.
  destruct (cycle_anatomy _ _ _ _ _ _ Hr)
    as [(e & _ & ?)|[(w1 & _ & _ & ?)
       |[(w1 & w2 & _ & _ & _ & ?)|(w1 & w2 & w3 & c0 & Hread & Hchk & Hsel & Ht)]]];
    try discriminate.
  destruct (read_phase_frame _ _ _ _ _ Hread) as (_ & _ & Hi).
  destruct (check_sensors_outcome _ _ _ Hchk) as (_ & _ & Hi2 & _).
  destruct (select_level_frame _ _ _ _ _ Hsel) as (_ & _ & Hi3).
  destruct (cycle_tail_outcome _ _ _ _ _ Ht) as [(_ & Hi4 & _)|?]; [|discriminate].
  now rewrite Hi4, Hi3, Hi2, Hi.
Qed.

(** X12: the loop returns only when [interrupted] is set, and a loop that used
    up its cycles without returning has it clear. *)
Theorem run_loop_returns_when_interrupted (config : Config)
    (envs : list (CycleEnv Hw)) (cur : nat) (w w' : World) (r : RunEnd) :
  run_loop fail_raises options config envs cur w = (Ok r, w') ->
  match r with
  | Returned => is_Some (interrupted w')
  | StillRunning => interrupted w' = None
  end.
Proof.
  revert cur w. induction envs as [|env envs IH]; intros cur w; simpl;
    unfold bind at 1, gets at 1; destruct (interrupted w) as [sg|] eqn:Hi.
  - intros [= <- <-]. rewrite Hi. eauto.
  - intros [= <- <-]. exact Hi.
  - intros [= <- <-]. rewrite Hi. eauto.
  - unfold bind at 1.
    destruct (cycle fail_raises options config env cur w) as [[c|e|] w1]; try discriminate.
    apply IH.
Qed.


(** *** The bias across cycles *)

Lemma read_phase_carries_bias (config : Config) (h : Hw) (w w1 : World) :
  (forall s b b', read_temps s h b = inr b' ->
                  bias (temp_state b') = bias (temp_state b)) ->
  read_phase config h w = (Ok tt, w1) ->
  bias (temp_state (bufs w1)) = bias (temp_state (bufs w)).
Proof.
  intros Hs. unfold read_phase, bind, modify. intros Hr.
  apply (for_each_invariant
           (fun w w' : World => bias (temp_state (bufs w')) = bias (temp_state (bufs w))))
    in Hr.
  - rewrite Hr. reflexivity.
  - reflexivity.
  - intros s1 s2 s3 H1 H2. congruence.
  - intros s x o x'. unfold read_sensor.
    destruct (read_temps s h (bufs x)) as [e|b] eqn:E; intros [= _ <-]; [reflexivity|].
    cbn. eapply Hs. exact E.
Qed.

Lemma cycle_decays_bias (config : Config) (env : CycleEnv Hw) (cur c : nat)
    (w w' : World) :
  (forall s b b', read_temps s (hw env) b = inr b' ->
                  bias (temp_state b') = bias (temp_state b)) ->
  cycle fail_raises options config env cur w = (Ok c, w') ->
  bias (temp_state (bufs w'))
  = bias_decay (bias_level options) (bias (temp_state (bufs w))).
Proof.
  intros Hs Hr.
  destruct (cycle_anatomy _ _ _ _ _ _ Hr)
    as [(e & _ & ?)|[(w1 & _ & _ & ?)
       |[(w1 & w2 & _ & _ & _ & ?)|(w1 & w2 & w3 & c0 & Hread & Hchk & Hsel & Ht)]]];
    try discriminate.
  assert (Hb1 := read_phase_carries_bias _ _ _ _ Hs Hread).
  destruct (check_sensors_outcome _ _ _ Hchk) as (_ & Hb2 & _).
  destruct (select_level_frame _ _ _ _ _ Hsel) as (Hb3 & _).
  destruct (cycle_tail_outcome _ _ _ _ _ Ht) as [(_ & _ & Hb4 & _)|?]; [|discriminate].
  rewrite Hb4. cbn. now rewrite Hb3, Hb2, Hb1.
Qed.

Lemma last_interrupt_none (sigs : list Signal) (i : option Signal) :
  last_interrupt sigs i
  = if existsb writes_interrupted sigs then last_interrupt sigs i else i.
Proof.
  unfold last_interrupt. revert i. induction sigs as [|sg sigs IH]; intros i; simpl.
  - reflexivity.
  - destruct (writes_interrupted sg) eqn:E; simpl; [reflexivity|]. apply IH.
Qed.

Lemma last_interrupt_some (sigs : list Signal) (i : option Signal) :
  existsb writes_interrupted sigs = true -> is_Some (last_interrupt sigs i).
Proof.
  unfold last_interrupt. revert i. induction sigs as [|sg sigs IH]; intros i; simpl.
  - discriminate.
  - destruct (writes_interrupted sg) eqn:E; simpl.
    + intros _. destruct (existsb writes_interrupted sigs) eqn:E2.
      * now apply IH.
      * fold (last_interrupt sigs (Some sg)). rewrite last_interrupt_none, E2. eauto.
    + apply IH.
Qed.

Lemma cycle_interrupted_after (config : Config) (env : CycleEnv Hw)
    (cur c : nat) (w w' : World) :
  cycle fail_raises options config env cur w = (Ok c, w') ->
  interrupted w' = last_interrupt (signals env) (interrupted w).
Proof.
  intros Hr.
  destruct (cycle_anatomy _ _ _ _ _ _ Hr)
    as [(e & _ & ?)|[(w1 & _ & _ & ?)
       |[(w1 & w2 & _ & _ & _ & ?)|(w1 & w2 & w3 & c0 & Hread & Hchk & Hsel & Ht)]]];
    try discriminate.
  destruct (read_phase_frame _ _ _ _ _ Hread) as (_ & _ & Hi).
  destruct (check_sensors_outcome _ _ _ Hchk) as (_ & _ & Hi2 & _).
  destruct (select_level_frame _ _ _ _ _ Hsel) as (_ & _ & Hi3).
  destruct (cycle_tail_outcome _ _ _ _ _ Ht) as [(_ & Hi4 & _)|?]; [|discriminate].
  now rewrite Hi4, Hi3, Hi2, Hi.
Qed.


(** *** The backward branch *)

(** X14: in a cycle in which the [<=] test of the selected Level fails and its
    [>] test holds, the selection retreats through the Levels whose [>] test
    holds and rests on the first whose test fails or on the lowest Level;
    the resting position is always a Level of the sequence, exactly one
    [set_speed] is issued, for that Level, and [cur_lvl] is dereferenced only
    where it points to a Level. Whether [b_tmax], which the log line
    dereferences, is valid is up to the sensor drivers and is not part of
    this property. *)
Theorem backward_scan_single_set_speed (config : Config) (env : CycleEnv Hw)
    (cur : nat) (w w1 w' : World) (l : Level) (o : Outcome nat) :
  let ts := temp_state (bufs w1) in
  read_phase config (hw env) w = (Ok tt, w1) ->
  temp_it ts = end_it ts ->
  levels config !! cur = Some l ->
  le_state l ts = false ->
  gt_state l ts = true ->
  cycle fail_raises options config env cur w = (o, w') ->
  exists k l',
    scan_down (levels config) ts cur = Some k
    /\ levels config !! k = Some l'
    /\ (k <= cur)%nat
    /\ (forall j lj, (k < j <= cur)%nat -> levels config !! j = Some lj ->
                     gt_state lj ts = true)
    /\ ((0 < k)%nat -> gt_state l' ts = false)
    /\ fan_cmds w' = fan_cmds w ++ [set_speed l']
    /\ o <> Undefined
    /\ (forall c, o = Ok c -> c = k)
    /\ (SIGSEGV ∉ signals env -> o = Ok k).
Proof.
  intros ts Hread Hend Hl Hle Hgt Hcyc.
  assert (Hcur : (cur < length (levels config))%nat) by (eapply lookup_lt_Some; exact Hl).
  destruct (scan_down_spec (levels config) ts cur Hcur) as (k & Hk & Hkle & Hall & Hstop).
  destruct (select_level_backward options config cur w1 l Hl Hle Hgt)
    as (k' & l' & w2 & Hk' & Hl' & Hsel & Hf & _).
  fold ts in Hk'. rewrite Hk in Hk'. injection Hk' as <-.
  rewrite (cycle_after_check _ _ _ _ _ _ _ Hread Hend) in Hcyc.
  rewrite (bind_ok _ _ _ _ _ Hsel) in Hcyc.
  destruct (cycle_tail _ _ _ _ _ _ Hcyc) as (Hf' & _ & Hc & Hok).
  destruct (read_phase_frame _ _ _ _ _ Hread) as (Hf1 & _).
  exists k, l'. split; [exact Hk|]. split; [exact Hl'|]. split; [exact Hkle|].
  split; [exact Hall|]. split; [intros Hpos; now apply Hstop|].
  split; [now rewrite Hf', Hf, Hf1|]. split; [|split; [exact Hc | exact Hok]].
  intros ->. destruct (cycle_tail_outcome _ _ _ _ _ Hcyc) as [(? & _)|?]; done.
Qed.


(** *** The whole of [run] *)

(** How [run] starts: a sensor that throws stops it before the fan is
    touched; otherwise the fan is initialised and the first speed is set for
    the position the scan reaches, unless that is past the end. *)
Lemma run_init_outcome (config : Config) (h : Hw) (w w' : World) o :
  run_init options config h w = (o, w') ->
  (exists e, o = Throw e /\ fan_cmds w' = fan_cmds w)
  \/ (o = Undefined /\ fan_cmds w' = fan_cmds w ++ [fan_init]
      /\ scan_up (levels config) (temp_state (bufs w')) 0 = length (levels config))
  \/ (exists i l, o = Ok i /\ levels config !! i = Some l
        /\ fan_cmds w' = fan_cmds w ++ [fan_init; set_speed l]).
Proof.
  unfold run_init. unfold bind at 1, modify at 1. unfold bind at 1, modify at 1.
  unfold bind at 1.
  match goal with |- context [read_all config h ?w0] =>
    destruct (read_all config h w0) as [[[]|e|] w1] eqn:Hread end.
  - destruct (read_all_frame _ _ _ _ _ Hread) as (Hf1 & _). cbn in Hf1.
    unfold bind at 1, modify at 1. unfold bind at 1, fan at 1, modify at 1.
    unfold bind at 1, gets at 1. cbn [temp_state bufs with_bufs on_last_temp_state issue].
    set (ts := temp_state (bufs w1)).
    set (w2 := issue fan_init _).
    destruct (levels config !! scan_up (levels config) ts 0) as [l|] eqn:Hl.
    + destruct (log_and_set_speed_ok config _ w2 l Hl) as (w3 & E & Hf & Hb).
      unfold bind. rewrite E. intros [= <- <-]. right. right.
      exists (scan_up (levels config) ts 0), l. split; [reflexivity|].
      split; [exact Hl|]. rewrite Hf. cbn. rewrite Hf1. now rewrite <- app_assoc.
    + unfold bind. rewrite (log_and_set_speed_undefined config _ w2 Hl).
      intros [= <- <-]. right. left. split; [reflexivity|]. cbn. rewrite Hf1.
      split; [reflexivity|]. fold ts. apply lookup_ge_None in Hl.
      destruct (scan_up_spec (levels config) ts 0) as (Hb & _); lia.
  - intros [= <- <-]. left. exists e. split; [reflexivity|].
    now destruct (read_all_frame _ _ _ _ _ Hread) as (-> & _).
  - now apply read_all_defined in Hread.
Qed.

Lemma run_loop_commands (config : Config) (envs : list (CycleEnv Hw)) (cur : nat)
    (w w' : World) o :
  run_loop fail_raises options config envs cur w = (o, w') ->
  exists cmds, fan_cmds w' = fan_cmds w ++ cmds
    /\ Forall (commands_level (levels config)) cmds
    /\ (length cmds <= length envs)%nat.
Proof.
  revert cur w. induction envs as [|env envs IH]; intros cur w; simpl;
    unfold bind at 1, gets at 1; destruct (interrupted w) as [sg|] eqn:Hi;
    try (intros [= <- <-]; exists []; rewrite app_nil_r;
         split; [reflexivity|]; split; [constructor | simpl; lia]).
  unfold bind at 1.
  destruct (cycle_commands config env cur w) as (c1 & Hf1 & Hlen1 & Hall1 & _).
  destruct (cycle fail_raises options config env cur w) as [[c|e|] w1] eqn:Hc;
    cbn [fst snd] in Hf1.
  - intros Hrest. destruct (IH _ _ Hrest) as (c2 & Hf2 & Hall2 & Hlen2).
    exists (c1 ++ c2). rewrite Hf2, Hf1, <- app_assoc. split; [reflexivity|].
    split; [now apply Forall_app|]. rewrite length_app. lia.
  - intros [= <- <-]. exists c1. split; [exact Hf1|]. split; [exact Hall1|]. lia.
  - intros [= <- <-]. exists c1. split; [exact Hf1|]. split; [exact Hall1|]. lia.
Qed.

(** X15: whatever the sensors, the signals and the outcome, the fan commands of
    a call of [run] are either none, when a sensor threw on the first
    reading, or one [init] followed by [set_speed] and
    [ping_watchdog_and_depulse] commands for Levels of the configuration: at
    most one for the start and one for each cycle. The fan is never
    initialised twice and never commanded before it is initialised. *)
Theorem run_commands_follow_one_init (config : Config) (h : Hw)
    (envs : list (CycleEnv Hw)) (w : World) :
  let r := run fail_raises options config h envs w in
  exists cmds, fan_cmds (snd r) = fan_cmds w ++ cmds
    /\ (cmds = []
        \/ exists rest, cmds = fan_init :: rest
             /\ Forall (commands_level (levels config)) rest
             /\ (length rest <= S (length envs))%nat).
Proof.
  intros r. subst r. unfold run, bind.
  destruct (run_init options config h w) as [o1 w1] eqn:Hinit.
  destruct (run_init_outcome _ _ _ _ _ Hinit)
    as [(e & -> & Hf)|[(-> & Hf & _)|(i & l & -> & Hl & Hf)]]; cbn [fst snd].
  - exists []. rewrite app_nil_r. auto.
  - exists [fan_init]. split; [exact Hf|]. right. exists []. repeat split; [constructor|simpl; lia].
  - destruct (run_loop fail_raises options config envs i w1) as [o2 w2] eqn:Hloop.
    destruct (run_loop_commands _ _ _ _ _ _ Hloop) as (c2 & Hf2 & Hall2 & Hlen2).
    cbn [snd]. exists ([fan_init; set_speed l] ++ c2).
    rewrite Hf2, Hf, <- app_assoc. split; [reflexivity|]. right.
    exists (set_speed l :: c2). split; [reflexivity|]. split; [|simpl; lia].
    constructor; [|exact Hall2]. simpl. eapply list_elem_of_lookup_2. exact Hl.
Qed.

(** X10: a cycle calls the fan driver at most once, exactly once when it
    completes, and only with [set_speed] or [ping_watchdog_and_depulse] for a
    Level of the configuration; a cycle that dereferences [cur_lvl] where
    there is no Level has not called it. A completed cycle leaves [cur_lvl]
    on a Level of the sequence. *)
Theorem cycle_issues_at_most_one_command (config : Config) (env : CycleEnv Hw)
    (cur : nat) (w : World) :
  let r := cycle fail_raises options config env cur w in
  exists cmds, fan_cmds (snd r) = fan_cmds w ++ cmds
    /\ (length cmds <= 1)%nat
    /\ Forall (commands_level (levels config)) cmds
    /\ (forall c, fst r = Ok c ->
        length cmds = 1%nat /\ (c < length (levels config))%nat)
    /\ (fst r = Undefined -> cmds = []).
Proof.
  intros r.
  destruct (cycle_commands config env cur w) as (cmds & Hf & Hlen & Hall & Hok & _ & Hu).
  exists cmds. auto.
Qed.

(** *** Freedom from undefined behaviour *)

Lemma scan_up_below_top (lvls pre : list Level) (top : Level)
    (ts : TemperatureState) (cur : nat) :
  lvls = pre ++ [top] -> le_state top ts = false ->
  (cur < length lvls)%nat ->
  (scan_up lvls ts cur < length lvls)%nat.
Proof.
  intros -> Htop Hcur.
  destruct (scan_up_spec (pre ++ [top]) ts cur) as (Hb & Hall & _); [lia|].
  rewrite length_app in *. simpl in *.
  destruct (decide (scan_up (pre ++ [top]) ts cur = (length pre + 1)%nat)) as [E|N]; [|lia].
  exfalso. rewrite E in Hall.
  assert (Hl : (pre ++ [top]) !! length pre = Some top).
  { rewrite lookup_app_r by lia. now rewrite Nat.sub_diag. }
  rewrite (Hall (length pre) top) in Htop; [discriminate | lia | exact Hl].
Qed.

Lemma cycle_defined (config : Config) (pre : list Level) (top : Level)
    (env : CycleEnv Hw) (cur : nat) (w w' : World) o :
  levels config = pre ++ [top] -> (forall ts, le_state top ts = false) ->
  (cur < length (levels config))%nat ->
  cycle fail_raises options config env cur w = (o, w') ->
  o <> Undefined /\ (forall c, o = Ok c -> (c < length (levels config))%nat).
Proof.
  intros Hlv Htop Hcur Hr.
  destruct (cycle_anatomy _ _ _ _ _ _ Hr)
    as [(e & _ & ->)|[(w1 & _ & _ & ->)
       |[(w1 & w2 & _ & _ & Hsel & ->)|(w1 & w2 & w3 & c & _ & _ & Hsel & Ht)]]];
    try (split; [discriminate | discriminate]).
  - exfalso. destruct (select_level_outcome _ _ _ _ _ Hsel) as (? & _ & _ & _ & _ & _ & Hu).
    destruct (Hu eq_refl) as (_ & [Hge|(l & _ & _ & Hk)]); [lia|].
    assert (Hlt := scan_up_below_top _ _ _ (temp_state (bufs w2)) cur Hlv (Htop _) Hcur).
    lia.
  - destruct (select_level_outcome _ _ _ _ _ Hsel) as (? & _ & _ & _ & Hok & _).
    destruct (Hok c eq_refl) as (Hc & _).
    destruct (cycle_tail_outcome _ _ _ _ _ Ht) as [(E & _)|E]; subst o;
      (split; [discriminate|]); [|discriminate]. now intros c' [= <-].
Qed.

(** X16: when the highest Level of the configuration is one whose [<=] test
    never holds, a call of [run] has no undefined behaviour: [cur_lvl] is
    never dereferenced past the end, at the start or in any cycle, whatever
    the sensors read. *)
Theorem run_defined_when_top_level_never_passes (config : Config)
    (pre : list Level) (top : Level) (h : Hw) (envs : list (CycleEnv Hw)) (w : World) :
  levels config = pre ++ [top] ->
  (forall ts, le_state top ts = false) ->
  fst (run fail_raises options config h envs w) <> Undefined.
Proof.
  intros Hlv Htop. unfold run, bind.
  destruct (run_init options config h w) as [o1 w1] eqn:Hinit.
  destruct (run_init_outcome _ _ _ _ _ Hinit)
    as [(e & -> & _)|[(-> & _ & Hk)|(i & l & -> & Hl & _)]]; cbn [fst].
  - discriminate.
  - exfalso.
    assert (Hlt := scan_up_below_top _ _ _ (temp_state (bufs w1)) 0%nat Hlv (Htop _)).
    rewrite Hlv, length_app in *. simpl in *. lia.
  - apply lookup_lt_Some in Hl. clear Hinit. revert i w1 Hl.
    induction envs as [|env envs IH]; intros i w1 Hi; simpl;
      unfold bind at 1, gets at 1; destruct (interrupted w1); try discriminate.
    unfold bind at 1.
    destruct (cycle fail_raises options config env i w1) as [[c|e|] w2] eqn:Hc.
    + apply IH. now apply (cycle_defined _ _ _ _ _ _ _ _ Hlv Htop Hi Hc).
    + discriminate.
    + now destruct (cycle_defined _ _ _ _ _ _ _ _ Hlv Htop Hi Hc).
Qed.

End LoopExtras.

(** ** The status request *)

Section ReportExtras.
Context {Level SensorDriver Hw : Type}.
Context `{LevelOps Level} `{SensorOps SensorDriver Hw}.
Variable fail_raises : LogLevel -> bool.
Variable options : Options.

#[local] Abbreviation World := (World Level).
#[local] Abbreviation Config := (Config Level SensorDriver).

Lemma bind_related {S A B} (R : Outcome B * S -> Outcome B * S -> Prop)
    (c : M S A) (k1 k2 : A -> M S B) (s : S) :
  (forall x, R x x) ->
  (forall a s', R (k1 a s') (k2 a s')) ->
  R (bind c k1 s) (bind c k2 s).
Proof. intros Hrefl Hk. unfold bind. destruct (c s) as [[a|e|] s']; auto. Qed.

Lemma sleep_for_without_SIGUSR1 (sigs : list Signal) (w1 w2 : World) :
  same_but_log w1 w2 ->
  fst (sleep_for sigs w1) = fst (sleep_for (without_SIGUSR1 sigs) w2)
  /\ same_but_log (snd (sleep_for sigs w1)) (snd (sleep_for (without_SIGUSR1 sigs) w2)).
Proof.
  unfold sleep_for, without_SIGUSR1. revert w1 w2.
  induction sigs as [|sg sigs IH]; intros w1 w2 Hs.
  - cbn. auto.
  - destruct Hs as (Hb & Hi & Hf).
    destruct sg; cbn [List.filter for_each]; unfold bind; cbn;
      unfold bind, gets, log, modify, throw, ret; cbn;
      try (apply IH; repeat split; cbn; assumption);
      (split; [reflexivity | repeat split; assumption]).
Qed.

(** X17: a status request is read-only: a cycle during whose sleep SIGUSR1
    arrives ends with the same result, the same temperature states and hold
    timer, the same [interrupted] and the same fan commands as the cycle
    without the SIGUSR1; only the log can differ. *)
Theorem status_request_is_read_only (config : Config) (h : Hw)
    (sigs : list Signal) (cur : nat) (w : World) :
  let r := cycle fail_raises options config {| hw := h; signals := sigs |} cur w in
  let r' := cycle fail_raises options config
                  {| hw := h; signals := without_SIGUSR1 sigs |} cur w in
  fst r = fst r' /\ same_but_log (snd r) (snd r').
Proof.
  intros r r'. subst r r'. unfold cycle. cbn [hw signals].
  set (R := fun x y : Outcome nat * World =>
              fst x = fst y /\ same_but_log (snd x) (snd y)).
  assert (Hrefl : forall x, R x x) by (intros x; split; [reflexivity | repeat split]).
  change (R ((read_phase config h ;; check_sensors fail_raises ;;
              cur_lvl' <- select_level options config cur ;;
              sleep_for sigs ;; decay_bias options ;; ret cur_lvl') w)
            ((read_phase config h ;; check_sensors fail_raises ;;
              cur_lvl' <- select_level options config cur ;;
              sleep_for (without_SIGUSR1 sigs) ;; decay_bias options ;; ret cur_lvl') w)).
  apply bind_related; [exact Hrefl|]. intros [] w1.
  apply bind_related; [exact Hrefl|]. intros [] w2.
  apply bind_related; [exact Hrefl|]. intros c w3.
  unfold bind at 1 3.
  destruct (sleep_for_without_SIGUSR1 sigs w3 w3) as (Ho & Hs); [repeat split|].
  destruct (sleep_for sigs w3) as [o1 w4].
  destruct (sleep_for (without_SIGUSR1 sigs) w3) as [o2 w5].
  cbn [fst snd] in Ho, Hs. subst o2. destruct Hs as (Hb & Hi & Hf).
  destruct o1 as [[]|e|]; cbn; (split; [reflexivity|]); repeat split; cbn;
    rewrite ?Hb; assumption || reflexivity.
Qed.

End ReportExtras.

(** ** The loop of [main] *)

Section MainExtras.
Context {Level SensorDriver Hw : Type}.
Context `{LevelOps Level} `{SensorOps SensorDriver Hw}.
Variable fail_raises : LogLevel -> bool.
Variable options : Options.

#[local] Abbreviation World := (World Level).
#[local] Abbreviation Config := (Config Level SensorDriver).

(** X18: when [run] returns on SIGHUP and [read_config] succeeds, the new
    Config replaces the old one, only the reload notice is logged,
    [interrupted] is cleared, the temperature states and the fan are left
    alone, and the loop of [main] resumes: its next iteration calls [run]
    with the new Config in the world the reload left, and what that call does
    is what the loop does next. *)
Theorem reload_success_swaps_config (config config_new : Config)
    (ep : Episode Hw) (eps : list (Episode Hw)) (rcs : list (ReadConfig Config))
    (w0 w : World) :
  run fail_raises options config (first_hw ep) (cycles ep) w0 = (Ok Returned, w) ->
  interrupted w = Some SIGHUP ->
  exists w', reload config (config_ok config_new) w = (Ok config_new, w')
    /\ interrupted w' = None
    /\ logged w' = logged w ++ [Logged TF_INF MSG_RELOAD_CONF]
    /\ bufs w' = bufs w /\ fan_cmds w' = fan_cmds w
    /\ main_loop fail_raises options (ep :: eps) (config_ok config_new :: rcs) config w0
       = main_loop fail_raises options eps rcs config_new w'
    /\ forall ep2 eps2, eps = ep2 :: eps2 ->
         forall o w2,
           run fail_raises options config_new (first_hw ep2) (cycles ep2) w' = (o, w2) ->
           match o with
           | Ok Returned =>
               forall sg, interrupted w2 = Some sg -> sg <> SIGHUP ->
                 main_loop fail_raises options (ep :: eps) (config_ok config_new :: rcs) config w0
                 = (Ok LoopLeft, w2)
           | Ok StillRunning =>
               main_loop fail_raises options (ep :: eps) (config_ok config_new :: rcs) config w0
               = (Ok InputExhausted, w2)
           | Throw x =>
               main_loop fail_raises options (ep :: eps) (config_ok config_new :: rcs) config w0
               = (Throw x, w2)
           | Undefined =>
               main_loop fail_raises options (ep :: eps) (config_ok config_new :: rcs) config w0
               = (Undefined, w2)
           end.
Proof.
  intros Hrun Hsig.
  assert (Hre : exists w', reload config (config_ok config_new) w = (Ok config_new, w')
            /\ interrupted w' = None
            /\ logged w' = logged w ++ [Logged TF_INF MSG_RELOAD_CONF]
            /\ bufs w' = bufs w /\ fan_cmds w' = fan_cmds w).
  { eexists. split; [reflexivity|]. cbn. auto. }
  destruct Hre as (w' & Hre & Hi & Hlog & Hb & Hf).
  assert (Hnext := main_loop_after_reload fail_raises options config config_new
                     (config_ok config_new) ep eps rcs w0 w w' Hrun Hsig Hre).
  exists w'. repeat (split; [assumption|]).
  intros ep2 eps2 -> o w2 Hrun2. rewrite Hnext.
  exact (main_loop_runs fail_raises options ep2 eps2 rcs config_new w' o w2 Hrun2).
Qed.

(** The loop of [main] is left only with [interrupted] holding a signal
    other than SIGHUP. *)
Lemma main_loop_leaves (eps : list (Episode Hw))
    (rcs : list (ReadConfig Config)) (config : Config) (w w' : World) :
  main_loop fail_raises options eps rcs config w = (Ok LoopLeft, w') ->
  exists sg, interrupted w' = Some sg /\ sg <> SIGHUP.
Proof.
  revert rcs config w. induction eps as [|ep eps IH]; intros rcs config w; simpl;
    [discriminate|].
  unfold bind at 1.
  destruct (run fail_raises options config (first_hw ep) (cycles ep) w)
    as [[[]|e|] w1] eqn:Hrun; try discriminate.
  unfold bind at 1, gets at 1.
  destruct (interrupted w1) as [sg|] eqn:Hi.
  - destruct sg; try (intros [= <-]; eexists; split; [exact Hi | discriminate]).
    destruct rcs as [|rc rcs]; [discriminate|].
    unfold bind at 1. destruct (reload config rc w1) as [[c|e|] w2] eqn:Hre;
      try discriminate.
    unfold bind at 1, gets at 1.
    rewrite (reload_clears_interrupted _ _ _ _ _ Hre). apply IH.
  - apply IH.
Qed.

(** X19: when [main] leaves its loop it logs the termination message last, and
    it leaves the loop only with [interrupted] holding a signal other than
    SIGHUP: a reload request never ends the process, whether the reload
    succeeds or fails. *)
Theorem main_body_logs_termination (first : ReadConfig Config)
    (eps : list (Episode Hw)) (rcs : list (ReadConfig Config)) (w w' : World) :
  main_body fail_raises options first eps rcs w = (Ok LoopLeft, w') ->
  last (logged w') = Some (Logged TF_INF MSG_TERM)
  /\ exists sg, interrupted w' = Some sg /\ sg <> SIGHUP.
Proof.
  unfold main_body. destruct first as [config|e]; [|discriminate].
  unfold bind at 1.
  destruct (main_loop fail_raises options eps rcs config w) as [[[]|e|] w1] eqn:Hloop;
    try discriminate.
  cbn. intros [= <-]. cbn. split; [apply last_snoc|].
  exact (main_loop_leaves _ _ _ _ _ Hloop).
Qed.

End MainExtras.

(** ** The further properties on the scenario *)

(** The middle Level selected, a reading of 47 and the signals SIGUSR1,
    SIGTERM and SIGHUP during the sleep. *)
Lemma cycle_records_last_interrupt_witness :
  let env := reading 47 [SIGUSR1; SIGTERM; SIGHUP] in
  let r := cycle raise_errors scenario_options scenario_config env 1 world1 in
  fst r = Ok 1%nat /\ interrupted (snd r) = Some SIGHUP.
Proof.
  intros env r.
  assert (Hr : cycle raise_errors scenario_options scenario_config env 1 world1
               = (Ok 1%nat, snd r)) by (vm_compute; reflexivity).
  split; [reflexivity|].
  rewrite (cycle_records_last_interrupt raise_errors scenario_options scenario_config
             env 1 1 world1 (snd r) Hr).
  reflexivity.
Defined.

(** Three cycles offered, SIGTERM in the second. *)
Lemma run_loop_returns_when_interrupted_witness :
  let envs := [reading 47 []; reading 47 [SIGTERM; SIGUSR1]; reading 47 []] in
  let r := run_loop raise_errors scenario_options scenario_config envs 1 world_biased in
  fst r = Ok Returned /\ is_Some (interrupted (snd r)).
Proof.
  intros envs r.
  assert (Hr : run_loop raise_errors scenario_options scenario_config envs 1 world_biased
               = (Ok Returned, snd r)) by (vm_compute; reflexivity).
  split; [reflexivity|].
  exact (run_loop_returns_when_interrupted raise_errors scenario_options scenario_config
           envs 1 world_biased (snd r) Returned Hr).
Defined.

(** The sensors of the scenario write readings only. *)
Lemma channel_keeps_bias (s : nat) (h : list (list Z)) (b b' : Buffers) :
  read_temps s h b = inr b' -> bias (temp_state b') = bias (temp_state b).
Proof.
  unfold read_temps, Channel_ops. intros [= <-].
  generalize (default [] (h !! s)). intros vs. revert b.
  induction vs as [|v vs IH]; intros b; simpl; [reflexivity|].
  rewrite IH. reflexivity.
Qed.


(** The highest Level selected and a reading of 40: the selection falls back
    to the lowest Level. *)
Lemma backward_scan_single_set_speed_witness :
  let env := reading 40 [] in
  let w1 := snd (read_phase scenario_config (hw env) world_high) in
  let r := cycle raise_errors scenario_options scenario_config env 2 world_high in
  scan_down (levels scenario_config) (temp_state (bufs w1)) 2 = Some 0%nat
  /\ fst r = Ok 0%nat
  /\ fan_cmds (snd r)
     = fan_cmds world_high ++ [set_speed {| engage := 0; disengage := 0; speed := 1 |}].
Proof.
  intros env w1 r.
  assert (Hread : read_phase scenario_config (hw env) world_high = (Ok tt, w1))
    by reflexivity.
  assert (Hend : temp_it (temp_state (bufs w1)) = end_it (temp_state (bufs w1)))
    by reflexivity.
  assert (Hl : levels scenario_config !! 2%nat
               = Some {| engage := 70; disengage := 65; speed := 3 |}) by reflexivity.
  assert (Hle : le_state {| engage := 70; disengage := 65; speed := 3 |}
                         (temp_state (bufs w1)) = false) by reflexivity.
  assert (Hgt : gt_state {| engage := 70; disengage := 65; speed := 3 |}
                         (temp_state (bufs w1)) = true) by reflexivity.
  assert (Hr : cycle raise_errors scenario_options scenario_config env 2 world_high
               = (fst r, snd r)) by apply surjective_pairing.
  destruct (backward_scan_single_set_speed raise_errors scenario_options scenario_config
              env 2 world_high w1 (snd r) _ (fst r) Hread Hend Hl Hle Hgt Hr)
    as (k & l' & Hk & Hl' & _ & _ & _ & Hcmds & _ & _ & Hok).
  assert (Ek : k = 0%nat) by (vm_compute in Hk; congruence). subst k.
  assert (El : l' = {| engage := 0; disengage := 0; speed := 1 |})
    by (vm_compute in Hl'; congruence). subst l'.
  split; [exact Hk|]. split; [|exact Hcmds].
  apply Hok. cbn. apply not_elem_of_nil.
Defined.

(** The capped Levels with readings of 72 and 99, above every engagement
    point. *)
Lemma run_defined_when_top_level_never_passes_witness :
  let envs := [reading 72 []; reading 99 [SIGTERM]] in
  levels capped_config
  = [ below_top {| engage := 0; disengage := 0; speed := 1 |};
      below_top {| engage := 50; disengage := 45; speed := 2 |} ] ++ [top_level 65 3]
  /\ (forall ts, le_state (top_level 65 3) ts = false)
  /\ fst (run raise_errors scenario_options capped_config [[40]] envs capped_world0)
     <> Undefined.
Proof.
  intros envs.
  assert (Hlv : levels capped_config
    = [ below_top {| engage := 0; disengage := 0; speed := 1 |};
        below_top {| engage := 50; disengage := 45; speed := 2 |} ] ++ [top_level 65 3])
    by reflexivity.
  assert (Htop : forall ts, le_state (top_level 65 3) ts = false) by reflexivity.
  split; [exact Hlv|]. split; [exact Htop|].
  exact (run_defined_when_top_level_never_passes raise_errors scenario_options
           capped_config _ _ [[40]] envs capped_world0 Hlv Htop).
Defined.

(** The episode interrupted by SIGHUP, with a replacement read without
    error, followed by a call of [run] that SIGTERM ends: the fan is
    initialised a second time and driven with the lowest Level of the new
    Config. *)
Lemma reload_success_swaps_config_witness :
  let ep := scenario_episode in
  let lvl := {| engage := 50; disengage := 45; speed := 2 |} in
  let lvl_new := {| engage := 60; disengage := 0; speed := 1 |} in
  reload scenario_config (config_ok crossed_config) world_hup
  = (Ok crossed_config, world_reloaded)
  /\ run raise_errors scenario_options crossed_config (first_hw closing_episode)
         (cycles closing_episode) world_reloaded
     = (Ok Returned, world_replaced)
  /\ main_loop raise_errors scenario_options [ep; closing_episode]
               [config_ok crossed_config] scenario_config world0
     = (Ok LoopLeft, world_replaced)
  /\ fan_cmds world_replaced
     = [fan_init; set_speed lvl; ping_watchdog_and_depulse lvl;
        fan_init; set_speed lvl_new; ping_watchdog_and_depulse lvl_new].
Proof.
  intros ep lvl lvl_new.
  assert (Hrun : run raise_errors scenario_options scenario_config (first_hw ep)
                     (cycles ep) world0 = (Ok Returned, world_hup))
    by (vm_compute; reflexivity).
  assert (Hsig : interrupted world_hup = Some SIGHUP) by reflexivity.
  assert (Hre0 : reload scenario_config (config_ok crossed_config) world_hup
                 = (Ok crossed_config, world_reloaded))
    by (vm_compute; reflexivity).
  assert (Hrun2 : run raise_errors scenario_options crossed_config
                      (first_hw closing_episode) (cycles closing_episode)
                      world_reloaded = (Ok Returned, world_replaced))
    by (vm_compute; reflexivity).
  assert (Hterm : interrupted world_replaced = Some SIGTERM) by reflexivity.
  assert (Hne : SIGTERM <> SIGHUP) by discriminate.
  destruct (reload_success_swaps_config raise_errors scenario_options scenario_config
              crossed_config ep [closing_episode] [] world0 world_hup Hrun Hsig)
    as (w' & Hre & _ & _ & _ & _ & _ & Hnext).
  rewrite Hre0 in Hre. injection Hre as <-.
  split; [exact Hre0|]. split; [exact Hrun2|].
  split; [exact (Hnext closing_episode [] eq_refl _ _ Hrun2 SIGTERM Hterm Hne)|].
  reflexivity.
Defined.

(** A call of [run] ended by SIGTERM. *)
Lemma main_body_logs_termination_witness :
  let ep := {| first_hw := [[40]]; cycles := [reading 47 [SIGTERM]] |} in
  let r := main_body raise_errors scenario_options (config_ok scenario_config) [ep] []
                     world0 in
  fst r = Ok LoopLeft
  /\ last (logged (snd r)) = Some (Logged TF_INF MSG_TERM)
  /\ exists sg, interrupted (snd r) = Some sg /\ sg <> SIGHUP.
Proof.
  intros ep r.
  assert (Hr : main_body raise_errors scenario_options (config_ok scenario_config) [ep] []
                         world0 = (Ok LoopLeft, snd r)) by (vm_compute; reflexivity).
  split; [reflexivity|].
  exact (main_body_logs_termination raise_errors scenario_options
           (config_ok scenario_config) [ep] [] world0 (snd r) Hr).
Defined.

(** ** The further properties on command lines *)

(** [-q -h -b 5]. *)
Lemma set_options_return_code_witness :
  let argv := [opt_q; opt_h; opt_b (Some (parsed 5%Q 1%nat 1%nat))] in
  let s := {| opts := scenario_options; opt_log := [] |} in
  fst (set_options raise_errors argv s) = Ok 1 /\ opt_h ∈ argv.
Proof.
  intros argv s.
  assert (Hr : set_options raise_errors argv s
               = (Ok 1, snd (set_options raise_errors argv s))) by reflexivity.
  split; [reflexivity|].
  destruct (set_options_return_code raise_errors argv s _ 1 Hr)
    as [(E & _)|[(_ & Hin)|(E & _)]]; [discriminate E | exact Hin | discriminate E].
Defined.

(** [-s 3]. *)
Lemma set_option_s_accepted_witness :
  let s := {| opts := scenario_options; opt_log := [] |} in
  let r := set_option raise_all (opt_s (Some (parsed 3 1%nat 1%nat))) s in
  fst r = Ok None /\ sleeptime (opts (snd r)) = 3 /\ 1 <= sleeptime (opts (snd r)) <= 15.
Proof.
  intros s r.
  assert (He : raise_all TF_ERR = true) by reflexivity.
  assert (Hr : set_option raise_all (opt_s (Some (parsed 3 1%nat 1%nat))) s
               = (Ok None, snd r)) by reflexivity.
  destruct (set_option_s_accepted raise_all 3 1 1 s (snd r) He Hr) as (Hs & _ & _ & Hw).
  split; [reflexivity|]. split; [exact Hs | apply Hw; reflexivity].
Defined.

(** [-b 50] when only errors raise. *)
Lemma set_option_b_unchecked_witness :
  let s := {| opts := scenario_options; opt_log := [] |} in
  let r := set_option raise_errors (opt_b (Some (parsed 50%Q 2%nat 2%nat))) s in
  raise_errors TF_WRN = false
  /\ fst r = Ok None /\ bias_level (opts (snd r)) = (50 / 10)%Q.
Proof.
  intros s r. assert (Hw : raise_errors TF_WRN = false) by reflexivity.
  split; [exact Hw|].
  exact (set_option_b_unchecked raise_errors 50%Q 2 2 s Hw).
Defined.

(** [-p2]. *)
Lemma set_option_p_with_value_complains_witness :
  let s := {| opts := scenario_options; opt_log := [] |} in
  let r := set_option raise_all (opt_p (Some (parsed 2%Q 1%nat 1%nat))) s in
  fst r = Throw (InvocationError MSG_OPT_P)
  /\ opts (snd r) = with_depulse 2 (opts s).
Proof.
  intros s r.
  assert (Hinv : 1%nat <> 0%nat) by discriminate.
  assert (He : raise_all TF_ERR = true) by reflexivity.
  assert (Hw : raise_all TF_WRN = true) by reflexivity.
  exact (set_option_p_with_value_complains raise_all 2%Q 1 1 s Hinv He Hw).
Defined.

(** [-p -s 3]: the notice shows the sleep time set after the depulse. *)
Lemma set_options_depulse_notice_witness :
  let s := {| opts := scenario_options; opt_log := [] |} in
  let r := set_options raise_errors depulse_then_sleep s in
  fst r = Ok 0
  /\ last (opt_log (snd r)) = Some (Logged TF_INF (MSG_DEPULSE (1 # 2) 3)).
Proof.
  intros s r.
  assert (Hr : set_options raise_errors depulse_then_sleep s = (Ok 0, snd r))
    by reflexivity.
  assert (Hd : (0 < depulse (opts (snd r)))%Q) by reflexivity.
  split; [reflexivity|].
  exact (set_options_depulse_notice raise_errors depulse_then_sleep s (snd r) Hr Hd).
Defined.

(** ** The further properties of the decay on values *)

(** A bias of -1 with bias_level 1, three steps. *)
Lemma negative_bias_never_returns_witness :
  (0 < 1)%Q /\ (-1 <= - (1 # 2))%Q
  /\ (decay_steps 3 1 (-1) <= -1)%Q /\ ~ (decay_steps 3 1 (-1) == 0)%Q.
Proof.
  assert (Hl : (0 < 1)%Q) by reflexivity.
  assert (Hb : (-1 <= - (1 # 2))%Q) by discriminate.
  split; [exact Hl|]. split; [exact Hb|].
  exact (negative_bias_never_returns 3 1 (-1) Hl Hb).
Defined.

(** A bias of 1 with the initial bias_level. *)
Lemma large_bias_level_never_returns_witness :
  (4 <= bias_level scenario_options)%Q /\ (1 # 2 <= 1)%Q
  /\ (decay_steps 3 (bias_level scenario_options) 1 <= - (1 # 2))%Q
  /\ ~ (decay_steps 3 (bias_level scenario_options) 1 == 0)%Q.
Proof.
  assert (Hl : (4 <= bias_level scenario_options)%Q) by discriminate.
  assert (Hb : (1 # 2 <= 1)%Q) by discriminate.
  split; [exact Hl|]. split; [exact Hb|].
  exact (large_bias_level_never_returns 2 (bias_level scenario_options) 1 Hl Hb).
Defined.

(** [-q -p] followed by [-h] and [-s 3]: the two options before [-h] are
    applied, the sleep time is not, and the depulse notice that the command
    line [-q -p] alone gets is not logged. *)
Lemma set_options_ignores_the_rest_witness :
  let s := {| opts := scenario_options; opt_log := [] |} in
  let pre := [opt_q; opt_p None] in
  let rest := [opt_s (Some (parsed 3 1%nat 1%nat))] in
  let s1 := snd (getopt_loop raise_errors pre s) in
  getopt_loop raise_errors pre s = (Ok None, s1)
  /\ set_options raise_errors (pre ++ opt_h :: rest) s
     = (Ok 1, add_log (Cerr MSG_USAGE) s1)
  /\ quiet (opts s1) = true /\ depulse (opts s1) = (1 # 2)%Q /\ sleeptime (opts s1) = 5
  /\ opt_log (add_log (Cerr MSG_USAGE) s1) = [Cerr MSG_USAGE]
  /\ opt_log (snd (set_options raise_errors pre s))
     = [Logged TF_INF (MSG_DEPULSE (1 # 2) 5)].
Proof.
  intros s pre rest s1.
  assert (Hpre : getopt_loop raise_errors pre s = (Ok None, s1)) by reflexivity.
  destruct (set_options_ignores_the_rest raise_errors pre rest s s1 Hpre) as (_ & Hh & _).
  split; [exact Hpre|]. split; [exact Hh|]. repeat split.
Defined.
